(** * kedge: synthesis of Kubernetes objects from an application descriptor

    Shallow embedding of [pkg/opencomposition.go].  The Go function
    [CreateK8sObjects] takes a pointer to an [App], mutates it in place
    (labels, pod volumes, declared persistent volumes, the name of a single
    container) and returns a slice of [runtime.Object] or an error.  Here the
    mutation is explicit state passing: every function that writes through
    the pointer returns the descriptor it leaves behind. *)

From Stdlib Require Import ZArith Ascii String List Lia.
From stdpp Require Import base option list strings gmap pretty.

Local Open Scope string_scope.
Local Open Scope Z_scope.
Local Open Scope list_scope.

(** ** Errors

    Go's [error] values are represented by their message.
    [errors.Wrap(err, msg)] yields an error printing as ["msg: err"]. *)

Definition error := string.

Definition Wrap (err : error) (msg : string) : error := msg +:+ ": " +:+ err.

(** Go's [(T, error)] return: a value with a nil error, or an error. *)
Inductive result (A : Type) : Type :=
| Ok (a : A)
| Err (e : error).
Arguments Ok {A} a.
Arguments Err {A} e.

(** What a call does: it returns, or it stops with a run-time panic (index
    out of range). *)
Inductive outcome (A : Type) : Type :=
| Returns (r : A)
| Panics.
Arguments Returns {A} r.
Arguments Panics {A}.

(** ** Data model: the pieces of [k8s.io/client-go/pkg/api/v1] the code touches *)

(** A Go map is either [nil] ([None]) or an allocated map ([Some m]). *)
Definition LabelMap := option (gmap string string).

Record ObjectMeta := {
  ObjectMeta_Name : string;
  ObjectMeta_Labels : LabelMap
}.

Record ContainerPort := {
  ContainerPort_Name : string;
  ContainerPort_HostPort : Z;
  ContainerPort_ContainerPort : Z;   (* int32 *)
  ContainerPort_Protocol : string
}.

Record VolumeMount := {
  VolumeMount_Name : string;
  VolumeMount_ReadOnly : bool;
  VolumeMount_MountPath : string
}.

Record Container := {
  Container_Name : string;
  Container_Image : string;
  Container_Ports : list ContainerPort;
  Container_VolumeMounts : list VolumeMount
}.

Record PersistentVolumeClaimVolumeSource := {
  ClaimName : string;
  ClaimReadOnly : bool
}.

Record VolumeSource := {
  VolumeSource_HostPath : option string;
  VolumeSource_PersistentVolumeClaim : option PersistentVolumeClaimVolumeSource
}.

(** [api_v1.Volume] *)
Record api_Volume := {
  api_Volume_Name : string;
  api_Volume_VolumeSource : VolumeSource
}.

Record PodSpec := {
  PodSpec_Volumes : list api_Volume;
  PodSpec_Containers : list Container
}.

(** ** Data model: the descriptor *)

(** [type Volume struct { api_v1.Volume; Size string }] *)
Record Volume := {
  Volume_Volume : api_Volume;
  Volume_Size : string
}.

Definition Volume_Name (v : Volume) : string := api_Volume_Name (Volume_Volume v).

Record App := {
  App_Name : string;
  App_Replicas : option Z;
  App_Expose : bool;
  App_Labels : LabelMap;
  App_PersistentVolumes : list Volume;
  App_PodSpec : PodSpec
}.

Definition App_Volumes (app : App) : list api_Volume := PodSpec_Volumes (App_PodSpec app).
Definition App_Containers (app : App) : list Container := PodSpec_Containers (App_PodSpec app).

(** Field assignments [app.F = x]. *)
Definition set_Labels (app : App) (l : LabelMap) : App :=
  {| App_Name := App_Name app; App_Replicas := App_Replicas app;
     App_Expose := App_Expose app; App_Labels := l;
     App_PersistentVolumes := App_PersistentVolumes app;
     App_PodSpec := App_PodSpec app |}.

Definition set_Expose (app : App) (b : bool) : App :=
  {| App_Name := App_Name app; App_Replicas := App_Replicas app;
     App_Expose := b; App_Labels := App_Labels app;
     App_PersistentVolumes := App_PersistentVolumes app;
     App_PodSpec := App_PodSpec app |}.

Definition set_PersistentVolumes (app : App) (vs : list Volume) : App :=
  {| App_Name := App_Name app; App_Replicas := App_Replicas app;
     App_Expose := App_Expose app; App_Labels := App_Labels app;
     App_PersistentVolumes := vs;
     App_PodSpec := App_PodSpec app |}.

Definition set_PodSpec (app : App) (ps : PodSpec) : App :=
  {| App_Name := App_Name app; App_Replicas := App_Replicas app;
     App_Expose := App_Expose app; App_Labels := App_Labels app;
     App_PersistentVolumes := App_PersistentVolumes app;
     App_PodSpec := ps |}.

Definition set_Volumes (app : App) (vs : list api_Volume) : App :=
  set_PodSpec app {| PodSpec_Volumes := vs;
                     PodSpec_Containers := App_Containers app |}.

Definition set_Containers (app : App) (cs : list Container) : App :=
  set_PodSpec app {| PodSpec_Volumes := App_Volumes app;
                     PodSpec_Containers := cs |}.

Definition set_Container_Name (c : Container) (n : string) : Container :=
  {| Container_Name := n; Container_Image := Container_Image c;
     Container_Ports := Container_Ports c;
     Container_VolumeMounts := Container_VolumeMounts c |}.

(** ** Data model: the derived resources *)

(** [intstr.IntOrString] *)
Inductive IntOrString :=
| IntVal (i : Z)
| StrVal (s : string).

Record ServicePort := {
  ServicePort_Name : string;
  ServicePort_Port : Z;              (* int32 *)
  ServicePort_TargetPort : IntOrString
}.

(** [type ServiceType string]; the zero value leaves the choice to the
    cluster, which defaults to a cluster-internal service. *)
Definition ServiceType := string.
Definition ServiceTypeUnset : ServiceType := EmptyString.
Definition ServiceTypeLoadBalancer : ServiceType := "LoadBalancer".

Record ServiceSpec := {
  ServiceSpec_Type : ServiceType;
  ServiceSpec_Ports : list ServicePort;
  ServiceSpec_Selector : LabelMap
}.

Record Service := {
  Service_ObjectMeta : ObjectMeta;
  Service_Spec : ServiceSpec
}.

Definition Service_set_Type (svc : Service) (t : ServiceType) : Service :=
  {| Service_ObjectMeta := Service_ObjectMeta svc;
     Service_Spec := {| ServiceSpec_Type := t;
                        ServiceSpec_Ports := ServiceSpec_Ports (Service_Spec svc);
                        ServiceSpec_Selector := ServiceSpec_Selector (Service_Spec svc) |} |}.

Definition Service_set_Ports (svc : Service) (ps : list ServicePort) : Service :=
  {| Service_ObjectMeta := Service_ObjectMeta svc;
     Service_Spec := {| ServiceSpec_Type := ServiceSpec_Type (Service_Spec svc);
                        ServiceSpec_Ports := ps;
                        ServiceSpec_Selector := ServiceSpec_Selector (Service_Spec svc) |} |}.

Record PodTemplateSpec := {
  PodTemplateSpec_ObjectMeta : ObjectMeta;
  PodTemplateSpec_Spec : PodSpec
}.

Record DeploymentSpec := {
  DeploymentSpec_Replicas : option Z;
  DeploymentSpec_Template : PodTemplateSpec
}.

Record Deployment := {
  Deployment_ObjectMeta : ObjectMeta;
  Deployment_Spec : DeploymentSpec
}.

Definition PersistentVolumeAccessMode := string.
Definition ReadWriteOnce : PersistentVolumeAccessMode := "ReadWriteOnce".
Definition ResourceStorage : string := "storage".

(** ** Integer conversions *)

(** [int32(x)]: two's-complement wrap-around to 32 bits. *)
Definition int32 (x : Z) : Z := (x + 2 ^ 31) mod 2 ^ 32 - 2 ^ 31.

Definition in_int32 (x : Z) : Prop := - 2 ^ 31 <= x < 2 ^ 31.

(** [intstr.FromInt(val int)] stores [int32(val)]. *)
Definition FromInt (val : Z) : IntOrString := IntVal (int32 val).

(** ** Control flow of a [for ... range] body

    A loop body either falls through to the next iteration (also what
    [continue] does), or leaves the enclosing function with an error, or
    panics. *)
Inductive flow :=
| Next
| Return (e : error)
| Panic.

Fixpoint range {A S : Type} (body : A -> S -> S * flow) (xs : list A) (s : S)
  : S * flow :=
  match xs with
  | [] => (s, Next)
  | x :: xs' =>
      match body x s with
      | (s', Next) => range body xs' s'
      | (s', stop) => (s', stop)
      end
  end.

(** ** Functions that do not depend on the quantity parser *)

Definition getLabels (app : App) : gmap string string :=
  {[ "app" := App_Name app ]}.

Definition initService (app : App) : Service :=
  {| Service_ObjectMeta := {| ObjectMeta_Name := App_Name app;
                              ObjectMeta_Labels := App_Labels app |};
     Service_Spec := {| ServiceSpec_Type := ServiceTypeUnset;
                        ServiceSpec_Ports := [];
                        ServiceSpec_Selector := App_Labels app |} |}.

(** Two nested [range] loops, each iteration appending one port. *)
Definition allPorts (app : App) : list ContainerPort :=
  fold_left
    (fun ports c => fold_left (fun ports p => ports ++ [p]) (Container_Ports c) ports)
    (App_Containers app) [].

Definition createDeployment (app : App) : Deployment :=
  {| Deployment_ObjectMeta := {| ObjectMeta_Name := App_Name app;
                                 ObjectMeta_Labels := App_Labels app |};
     Deployment_Spec :=
       {| DeploymentSpec_Replicas := App_Replicas app;
          DeploymentSpec_Template :=
            {| PodTemplateSpec_ObjectMeta := {| ObjectMeta_Name := App_Name app;
                                                ObjectMeta_Labels := App_Labels app |};
               PodTemplateSpec_Spec := App_PodSpec app |} |} |}.

Fixpoint isVolumeDefined_in (vs : list Volume) (name : string) : bool :=
  match vs with
  | [] => false
  | v :: vs' => if String.eqb name (Volume_Name v) then true
                else isVolumeDefined_in vs' name
  end.

Definition isVolumeDefined (app : App) (name : string) : bool :=
  isVolumeDefined_in (App_PersistentVolumes app) name.

(** The loop [for i := 0; i < len(...); i++], started at index [i]. *)
Fixpoint searchVolumeIndex_from (vs : list Volume) (name : string) (i : Z) : Z :=
  match vs with
  | [] => -1
  | v :: vs' => if String.eqb name (Volume_Name v) then i
                else searchVolumeIndex_from vs' name (i + 1)
  end.

Definition searchVolumeIndex (app : App) (name : string) : Z :=
  searchVolumeIndex_from (App_PersistentVolumes app) name 0.

(** Slice indexing [s[i]] with a Go [int]; [None] is the out-of-range panic. *)
Definition index {A : Type} (s : list A) (i : Z) : option A :=
  if i <? 0 then None else s !! Z.to_nat i.

(** The service port built for one container port. *)
Definition servicePort (p : ContainerPort) : ServicePort :=
  {| ServicePort_Name := "port-" +:+ pretty (ContainerPort_ContainerPort p);
     ServicePort_Port := int32 (ContainerPort_ContainerPort p);
     ServicePort_TargetPort := FromInt (ContainerPort_ContainerPort p) |}.

(** The pod volume built for a volume mount named [name]. *)
Definition podVolume (name : string) : api_Volume :=
  {| api_Volume_Name := name;
     api_Volume_VolumeSource :=
       {| VolumeSource_HostPath := None;
          VolumeSource_PersistentVolumeClaim :=
            Some {| ClaimName := name; ClaimReadOnly := false |} |} |}.

(** ** Synthesis

    [resource.ParseQuantity] and the type [resource.Quantity] belong to
    [k8s.io/client-go/pkg/api/resource], outside this repository; the
    development is parametric in both. *)

Section Synthesis.

Variable Quantity : Type.
Variable ParseQuantity : string -> result Quantity.

Record ResourceRequirements := {
  ResourceRequirements_Requests : gmap string Quantity
}.

Record PersistentVolumeClaimSpec := {
  PersistentVolumeClaimSpec_AccessModes : list PersistentVolumeAccessMode;
  PersistentVolumeClaimSpec_Resources : ResourceRequirements
}.

Record PersistentVolumeClaim := {
  PersistentVolumeClaim_ObjectMeta : ObjectMeta;
  PersistentVolumeClaim_Spec : PersistentVolumeClaimSpec
}.

(** [runtime.Object]: an interface value holding a pointer to one of the
    three resource kinds.  The deployment and the claims are always built
    with [&T{...}] and are never nil; the service pointer [svc] is declared
    as a nil [*api_v1.Service] and only assigned when there are ports, so
    the interface value that wraps it may hold a nil pointer ([None]). *)
Inductive Object :=
| ObjDeployment (d : Deployment)
| ObjService (svc : option Service)
| ObjPersistentVolumeClaim (pvc : PersistentVolumeClaim).

Definition createPVC (v : Volume) : result PersistentVolumeClaim :=
  match ParseQuantity (Volume_Size v) with
  | Err err => Err (Wrap err "could not read volume size")
  | Ok size =>
      Ok {| PersistentVolumeClaim_ObjectMeta :=
              {| ObjectMeta_Name := Volume_Name v; ObjectMeta_Labels := None |};
            PersistentVolumeClaim_Spec :=
              {| PersistentVolumeClaimSpec_AccessModes := [ReadWriteOnce];
                 PersistentVolumeClaimSpec_Resources :=
                   {| ResourceRequirements_Requests := {[ ResourceStorage := size ]} |} |} |}
  end.

(** The body of the inner loop of [CreateK8sObjects] (one volume mount).
    The loop state is the descriptor and the claim list [pvcs]. *)
Definition mountBody (vm : VolumeMount) (s : App * list Object) : (App * list Object) * flow :=
  let '(app, pvcs) := s in
  let podVolume := podVolume (VolumeMount_Name vm) in
  let app := set_Volumes app (App_Volumes app ++ [podVolume]) in
  if isVolumeDefined app (VolumeMount_Name vm) then
    let i := searchVolumeIndex app (VolumeMount_Name vm) in
    match index (App_PersistentVolumes app) i with
    | None => ((app, pvcs), Panic)
    | Some v =>
        match createPVC v with
        | Err err => ((app, pvcs), Return (Wrap err "cannot create pvc"))
        | Ok pvc => ((app, pvcs ++ [ObjPersistentVolumeClaim pvc]), Next)
        end
    end
  else
    let v := {| Volume_Volume := podVolume; Volume_Size := "100Mi" |} in
    let app := set_PersistentVolumes app (App_PersistentVolumes app ++ [v]) in
    match createPVC v with
    | Err err => ((app, pvcs), Return (Wrap err "cannot create pvc"))
    | Ok pvc => ((app, pvcs ++ [ObjPersistentVolumeClaim pvc]), Next)
    end.

(** The body of the outer loop: all mounts of one container. *)
Definition containerBody (c : Container) (s : App * list Object) : (App * list Object) * flow :=
  range mountBody (Container_VolumeMounts c) s.

(** The volume and claim pass, lines 219-253: [var pvcs] followed by the two
    nested loops. *)
Definition inferVolumes (app : App) : (App * list Object) * flow :=
  range containerBody (App_Containers app) (app, []).

(** Lines 196-198. *)
Definition defaultLabels (app : App) : App :=
  match App_Labels app with
  | None => set_Labels app (Some (getLabels app))
  | Some _ => app
  end.

(** Lines 200-217: the service pointer after the port block. *)
Definition buildService (app : App) : option Service :=
  let ports := allPorts app in
  if (0 <? length ports)%nat then
    let svc := initService app in
    let svc := if App_Expose app then Service_set_Type svc ServiceTypeLoadBalancer
               else svc in
    Some (fold_left
            (fun svc p =>
               Service_set_Ports svc
                 (ServiceSpec_Ports (Service_Spec svc) ++ [servicePort p]))
            ports svc)
  else None.

(** Lines 255-258; [None] is the out-of-range panic of [app.Containers[0]],
    which the length test rules out. *)
Definition defaultContainerName (app : App) : option App :=
  if (length (App_Containers app) =? 1)%nat then
    match App_Containers app !! 0%nat with
    | None => None
    | Some c0 =>
        if String.eqb (Container_Name c0) "" then
          Some (set_Containers app
                  (<[0%nat := set_Container_Name c0 (App_Name app)]> (App_Containers app)))
        else Some app
    end
  else Some app.

Definition CreateK8sObjects (app : App) : App * outcome (result (list Object)) :=
  let objects : list Object := [] in
  let app := defaultLabels app in
  let svc := buildService app in
  match inferVolumes app with
  | ((app, _), Return err) => (app, Returns (Err err))
  | ((app, _), Panic) => (app, Panics)
  | ((app, pvcs), Next) =>
      match defaultContainerName app with
      | None => (app, Panics)
      | Some app =>
          let deployment := createDeployment app in
          let objects := objects ++ [ObjDeployment deployment] in
          let objects := objects ++ [ObjService svc] in
          let objects := objects ++ pvcs in
          (app, Returns (Ok objects))
      end
  end.

End Synthesis.

Arguments ResourceRequirements_Requests {Quantity} r.
Arguments PersistentVolumeClaimSpec_AccessModes {Quantity} p.
Arguments PersistentVolumeClaimSpec_Resources {Quantity} p.
Arguments PersistentVolumeClaim_ObjectMeta {Quantity} p.
Arguments PersistentVolumeClaim_Spec {Quantity} p.
Arguments ObjDeployment {Quantity} d.
Arguments ObjService {Quantity} svc.
Arguments ObjPersistentVolumeClaim {Quantity} pvc.
Arguments createPVC {Quantity} ParseQuantity v.
Arguments mountBody {Quantity} ParseQuantity vm s.
Arguments containerBody {Quantity} ParseQuantity c s.
Arguments inferVolumes {Quantity} ParseQuantity app.
Arguments CreateK8sObjects {Quantity} ParseQuantity app.

(** ** The processing pipeline

    [Convert] reads each descriptor file, synthesises its objects and prints
    them.  Its collaborators live outside the repository and are taken as
    given: the file system ([ioutil.ReadFile]), the YAML decoder and encoder,
    the scheme lookup [api.Scheme.ObjectKind], and standard output, whose
    state is [Stdout].  The argument [files] is the slice
    [strings.Split(v.GetStringSlice("files")[0], ",")]. *)

Section Pipeline.

Variable Quantity : Type.
Variable ParseQuantity : string -> result Quantity.

Variable GroupVersionKind : Type.
Variable Stdout : Type.
Variable ioutil_ReadFile : string -> result string.
Variable yaml_Unmarshal : string -> result App.
Variable Scheme_ObjectKind : Object Quantity -> result (GroupVersionKind * bool).
Variable yaml_Marshal : GroupVersionKind -> Object Quantity -> result string.
Variable typeName : Object Quantity -> string.
Variable Fprintln : Stdout -> string -> Stdout * option error.
Variable Stdout_Write : Stdout -> string -> Stdout * option error.

Definition ReadFile (f : string) : result string :=
  match ioutil_ReadFile f with
  | Err err => Err (Wrap err "file reading failed")
  | Ok data => Ok data
  end.

(** The closure [writeObject]; [errors.Wrap(nil, msg)] is nil. *)
Definition writeObject (out : Stdout) (data : string) : Stdout * option error :=
  match Fprintln out "---" with
  | (out, Some err) => (out, Some (Wrap err "could not print to STDOUT"))
  | (out, None) =>
      match Stdout_Write out data with
      | (out, Some err) => (out, Some (Wrap err "could not write to STDOUT"))
      | (out, None) => (out, None)
      end
  end.

(** The body of the loop over [runtimeObjects].  Calling [GetObjectKind] on
    an interface that holds a nil pointer dereferences it. *)
Definition objectBody (runtimeObject : Object Quantity) (out : Stdout) : Stdout * flow :=
  match Scheme_ObjectKind runtimeObject with
  | Err err => (out, Return (Wrap err "ConvertToVersion failed"))
  | Ok (gvk, isUnversioned) =>
      if isUnversioned : bool then
        (out, Return ("ConvertToVersion failed: can't output unversioned type: "
                        +:+ typeName runtimeObject))
      else
        match runtimeObject with
        | ObjService None => (out, Panic)
        | _ =>
            match yaml_Marshal gvk runtimeObject with
            | Err err => (out, Return (Wrap err "failed to marshal object"))
            | Ok data =>
                match writeObject out data with
                | (out, Some err) => (out, Return (Wrap err "failed to write object"))
                | (out, None) => (out, Next)
                end
            end
        end
  end.

(** The body of the loop over [files].  The error returned by
    [CreateK8sObjects] is assigned to [err] and not looked at again; on an
    error the returned slice is nil and the inner loop does not run. *)
Definition fileBody (file : string) (out : Stdout) : Stdout * flow :=
  match ReadFile file with
  | Err err => (out, Return err)
  | Ok d =>
      match yaml_Unmarshal d with
      | Err err => (out, Return (Wrap err "could not unmarshal into internal struct"))
      | Ok app =>
          match snd (CreateK8sObjects ParseQuantity app) with
          | Panics => (out, Panic)
          | Returns r =>
              let runtimeObjects := match r with Ok objs => objs | Err _ => [] end in
              range objectBody runtimeObjects out
          end
      end
  end.

Definition Convert (files : list string) (out : Stdout) : Stdout * outcome (option error) :=
  match range fileBody files out with
  | (out, Return err) => (out, Returns (Some err))
  | (out, Panic) => (out, Panics)
  | (out, Next) => (out, Returns None)
  end.

End Pipeline.

Arguments Convert {Quantity} ParseQuantity {GroupVersionKind Stdout}
  ioutil_ReadFile yaml_Unmarshal Scheme_ObjectKind yaml_Marshal typeName
  Fprintln Stdout_Write files out.

(** ** A quantity parser to run the model with

    A stand-in for [resource.ParseQuantity] on the fragment "decimal digits
    followed by an optional binary suffix"; the value is the number of
    bytes.  It accepts ["100Mi"] and ["10Gi"] and rejects every string that
    does not start with a digit. *)
Module Sample.

Definition digit (c : ascii) : option Z :=
  let n := Z.of_nat (nat_of_ascii c) in
  if (48 <=? n) && (n <=? 57) then Some (n - 48) else None.

Fixpoint digits (s : string) (acc : Z) : Z * string :=
  match s with
  | String c s' =>
      match digit c with
      | Some d => digits s' (10 * acc + d)
      | None => (acc, s)
      end
  | EmptyString => (acc, s)
  end.

Definition suffix (s : string) : option Z :=
  if String.eqb s "" then Some 1
  else if String.eqb s "Ki" then Some (2 ^ 10)
  else if String.eqb s "Mi" then Some (2 ^ 20)
  else if String.eqb s "Gi" then Some (2 ^ 30)
  else if String.eqb s "Ti" then Some (2 ^ 40)
  else None.

Definition ParseQuantity (s : string) : result Z :=
  match s with
  | EmptyString => Err "empty quantity"
  | String c _ =>
      match digit c with
      | None => Err "quantity does not start with a digit"
      | Some _ =>
          let '(n, rest) := digits s 0 in
          match suffix rest with
          | Some m => Ok (n * m)
          | None => Err "unknown quantity suffix"
          end
      end
  end.

End Sample.

(** ** Vocabulary for stating properties *)

(** Every volume mount of the descriptor, in container-then-mount order. *)
Definition allMounts (app : App) : list VolumeMount :=
  flat_map Container_VolumeMounts (App_Containers app).

Definition mountNames (app : App) : list string :=
  map VolumeMount_Name (allMounts app).

(** The first declared volume called [name]. *)
Definition firstNamed (name : string) (vs : list Volume) : option Volume :=
  List.find (fun v => String.eqb name (Volume_Name v)) vs.

(** The declared volume the code appends for an undeclared mount [name]. *)
Definition defaultVolume (name : string) : Volume :=
  {| Volume_Volume := podVolume name; Volume_Size := "100Mi" |}.

(** The declared volume a mount called [name] is backed by: the first
    declaration of that name, or the default one. *)
Definition resolve (vs : list Volume) (name : string) : Volume :=
  match firstNamed name vs with
  | Some v => v
  | None => defaultVolume name
  end.

(** The effect of one mount on the declared volumes. *)
Definition declare (vs : list Volume) (name : string) : list Volume :=
  if isVolumeDefined_in vs name then vs else vs ++ [defaultVolume name].

(** Number of elements of [l] whose name is [n]. *)
Definition countNamed {A : Type} (name : A -> string) (n : string) (l : list A) : nat :=
  length (List.filter (fun x => String.eqb n (name x)) l).

(** The fields the volume pass leaves alone. *)
Definition sameOutsideVolumes (a b : App) : Prop :=
  App_Name a = App_Name b /\ App_Replicas a = App_Replicas b /\
  App_Expose a = App_Expose b /\ App_Labels a = App_Labels b /\
  App_Containers a = App_Containers b.

(** The descriptor declares every volume its containers mount. *)
Definition fullyDeclared (app : App) : Prop :=
  forall vm, In vm (allMounts app) -> isVolumeDefined app (VolumeMount_Name vm) = true.

(** Accessors of a claim. *)
Definition PVC_Name {Quantity : Type} (pvc : PersistentVolumeClaim Quantity) : string :=
  ObjectMeta_Name (PersistentVolumeClaim_ObjectMeta pvc).

Definition PVC_Requests {Quantity : Type} (pvc : PersistentVolumeClaim Quantity)
  : gmap string Quantity :=
  ResourceRequirements_Requests
    (PersistentVolumeClaimSpec_Resources (PersistentVolumeClaim_Spec pvc)).

Definition PVC_AccessModes {Quantity : Type} (pvc : PersistentVolumeClaim Quantity)
  : list PersistentVolumeAccessMode :=
  PersistentVolumeClaimSpec_AccessModes (PersistentVolumeClaim_Spec pvc).

(** The claims among a list of objects. *)
Definition claimsOf {Quantity : Type} (objs : list (Object Quantity))
  : list (PersistentVolumeClaim Quantity) :=
  flat_map (fun o => match o with ObjPersistentVolumeClaim pvc => [pvc] | _ => [] end) objs.

(** An object with its service, if it is one, made load-balanced. *)
Definition exposeService {Quantity : Type} (o : Object Quantity) : Object Quantity :=
  match o with
  | ObjService (Some svc) => ObjService (Some (Service_set_Type svc ServiceTypeLoadBalancer))
  | _ => o
  end.

Definition exposeResult {Quantity : Type} (r : outcome (result (list (Object Quantity))))
  : outcome (result (list (Object Quantity))) :=
  match r with
  | Returns (Ok objs) => Returns (Ok (map exposeService objs))
  | _ => r
  end.

(** ** Sample descriptors *)

Definition port (n : Z) : ContainerPort :=
  {| ContainerPort_Name := ""; ContainerPort_HostPort := 0;
     ContainerPort_ContainerPort := n; ContainerPort_Protocol := "TCP" |}.

Definition mount (name : string) : VolumeMount :=
  {| VolumeMount_Name := name; VolumeMount_ReadOnly := false;
     VolumeMount_MountPath := "/" +:+ name |}.

Definition container (name image : string) (ports : list ContainerPort)
    (mounts : list VolumeMount) : Container :=
  {| Container_Name := name; Container_Image := image;
     Container_Ports := ports; Container_VolumeMounts := mounts |}.

Definition declared (name size : string) : Volume :=
  {| Volume_Volume :=
       {| api_Volume_Name := name;
          api_Volume_VolumeSource :=
            {| VolumeSource_HostPath := None;
               VolumeSource_PersistentVolumeClaim := None |} |};
     Volume_Size := size |}.

Definition descriptor (name : string) (labels : LabelMap) (pvs : list Volume)
    (containers : list Container) : App :=
  {| App_Name := name; App_Replicas := None; App_Expose := false;
     App_Labels := labels; App_PersistentVolumes := pvs;
     App_PodSpec := {| PodSpec_Volumes := []; PodSpec_Containers := containers |} |}.

(** One unnamed container listening on 8080. *)
Definition app_web : App :=
  descriptor "web" None [] [container "" "nginx" [port 8080] []].

(** One container, no port, no mount. *)
Definition app_no_ports : App :=
  descriptor "web" None [] [container "" "nginx" [] []].

(** One container mounting an undeclared volume [data]. *)
Definition app_data : App :=
  descriptor "db" None [] [container "" "postgres" [port 5432] [mount "data"]].

(** The same with [data] declared at 10Gi. *)
Definition app_data_declared : App :=
  descriptor "db" None [declared "data" "10Gi"]
    [container "" "postgres" [port 5432] [mount "data"]].

(** Two containers sharing the mount name [data]. *)
Definition app_shared_mount : App :=
  descriptor "db" None []
    [container "primary" "postgres" [] [mount "data"];
     container "backup" "pgdump" [] [mount "data"]].



(** A declared volume of unparseable size that a container mounts. *)
Definition app_bad_size : App :=
  descriptor "db" None [declared "data" "lots"]
    [container "" "postgres" [port 5432] [mount "data"]].

(** A declared volume next to a mount of another name. *)
Definition app_unused_volume : App :=
  descriptor "db" None [declared "spare" "10Gi"]
    [container "" "postgres" [] [mount "data"]].

(** What a run with the sample parser leaves and returns. *)
Definition ranDescriptor (app : App) : App :=
  fst (CreateK8sObjects Sample.ParseQuantity app).

Definition ranObjects (app : App) : list (Object Z) :=
  match snd (CreateK8sObjects Sample.ParseQuantity app) with
  | Returns (Ok objs) => objs
  | _ => []
  end.

(** What one volume pass with the sample parser leaves and collects. *)
Definition passDescriptor (app : App) : App :=
  fst (fst (inferVolumes Sample.ParseQuantity app)).

Definition passClaims (app : App) : list (Object Z) :=
  snd (fst (inferVolumes Sample.ParseQuantity app)).

(** Two containers mounting declared volumes, one of them shared. *)
Definition app_all_declared : App :=
  descriptor "db" None [declared "data" "10Gi"; declared "logs" "1Gi"]
    [container "primary" "postgres" [port 5432] [mount "data"; mount "logs"];
     container "backup" "pgdump" [] [mount "data"]].

(** The size every mount resolves to parses. *)
Definition sizesParse {Quantity : Type} (ParseQuantity : string -> result Quantity)
    (app : App) : Prop :=
  Forall (fun n => exists size,
            ParseQuantity (Volume_Size (resolve (App_PersistentVolumes app) n)) = Ok size)
         (mountNames app).

(** ** A standard output that records what is written *)

(** A writer that appends its argument to a log and never fails; it stands
    for both [fmt.Fprintln(os.Stdout, _)] and [os.Stdout.Write]. *)
Definition logWrite (out : list string) (s : string) : list string * option error :=
  (out ++ [s], None).

(** What is written for a list of objects: for each one the separator and
    then its encoding. *)
Definition documents {Quantity : Type} (encode : Object Quantity -> string)
    (objs : list (Object Quantity)) : list string :=
  flat_map (fun o => ["---"; encode o]) objs.

(** The container list after the single-container name default. *)
Definition namedContainers (name : string) (cs : list Container) : list Container :=
  match cs with
  | [c] => if String.eqb (Container_Name c) "" then [set_Container_Name c name] else [c]
  | _ => cs
  end.

(** More sample descriptors. *)

(** Two unnamed containers. *)
Definition app_two_unnamed : App :=
  descriptor "web" None []
    [container "" "nginx" [port 80] []; container "" "redis" [port 6379] []].

(** Three mounts; the second resolves to a size that does not parse. *)
Definition app_bad_second : App :=
  descriptor "db" None [declared "logs" "lots"]
    [container "primary" "postgres" [port 5432] [mount "data"; mount "logs"];
     container "backup" "pgdump" [] [mount "data"]].

(** Labels given by the user. *)
Definition app_labelled : App :=
  descriptor "web" (Some {[ "tier" := "front" ]}) []
    [container "" "nginx" [port 8080] []].

(** The object is not a nil pointer, has a versioned kind and encodes to
    [encode o]. *)
Definition writable {Quantity GroupVersionKind : Type}
    (Scheme_ObjectKind : Object Quantity -> result (GroupVersionKind * bool))
    (yaml_Marshal : GroupVersionKind -> Object Quantity -> result string)
    (encode : Object Quantity -> string) (o : Object Quantity) : Prop :=
  o <> ObjService None /\
  exists gvk, Scheme_ObjectKind o = Ok (gvk, false) /\ yaml_Marshal gvk o = Ok (encode o).

(** ** Sample collaborators for the pipeline

    A file system with three descriptor files, a decoder for their contents,
    a scheme lookup that knows the three kinds and rejects a nil pointer, and
    an encoder that prints the kind and the name. *)

Definition sampleRead (file : string) : result string :=
  if String.eqb file "web.yaml" then Ok "web"
  else if String.eqb file "db.yaml" then Ok "db"
  else if String.eqb file "noports.yaml" then Ok "noports"
  else Err "no such file".

Definition sampleDecode (data : string) : result App :=
  if String.eqb data "web" then Ok app_web
  else if String.eqb data "db" then Ok app_bad_size
  else if String.eqb data "noports" then Ok app_no_ports
  else Err "not a descriptor".

Definition sampleKind (o : Object Z) : result (string * bool) :=
  match o with
  | ObjDeployment _ => Ok ("Deployment", false)
  | ObjService (Some _) => Ok ("Service", false)
  | ObjService None => Err "expected pointer, but got nil"
  | ObjPersistentVolumeClaim _ => Ok ("PersistentVolumeClaim", false)
  end.

Definition sampleEncode (o : Object Z) : string :=
  match o with
  | ObjDeployment d => "Deployment " +:+ ObjectMeta_Name (Deployment_ObjectMeta d)
  | ObjService (Some s) => "Service " +:+ ObjectMeta_Name (Service_ObjectMeta s)
  | ObjService None => "null"
  | ObjPersistentVolumeClaim pvc => "PersistentVolumeClaim " +:+ PVC_Name pvc
  end.

Definition sampleMarshal (gvk : string) (o : Object Z) : result string :=
  Ok (sampleEncode o).

Definition sampleTypeName (o : Object Z) : string :=
  match o with
  | ObjDeployment _ => "*v1beta1.Deployment"
  | ObjService _ => "*v1.Service"
  | ObjPersistentVolumeClaim _ => "*v1.PersistentVolumeClaim"
  end.

Definition sampleConvert (files : list string) (out : list string)
  : list string * outcome (option error) :=
  Convert Sample.ParseQuantity sampleRead sampleDecode sampleKind sampleMarshal
    sampleTypeName logWrite logWrite files out.

(** A writer that always fails and writes nothing. *)
Definition failingWrite (out : list string) (s : string) : list string * option error :=
  (out, Some "no space left on device").

(** ** Statements that are put to the test below *)

(** "After synthesis the pod-level volume list contains exactly one entry
    with the name of each mount, and at most one claim exists per mount name
    that was not declared." *)
Definition oneVolumeAndClaimPerMountName {Quantity : Type}
    (ParseQuantity : string -> result Quantity) (app : App) : Prop :=
  forall app' objs vm,
    CreateK8sObjects ParseQuantity app = (app', Returns (Ok objs)) ->
    In vm (allMounts app) ->
    countNamed api_Volume_Name (VolumeMount_Name vm) (App_Volumes app') = 1%nat /\
    (isVolumeDefined app (VolumeMount_Name vm) = false ->
     (countNamed PVC_Name (VolumeMount_Name vm) (claimsOf objs) <= 1)%nat).



(** ** Facts about loops *)

Lemma range_app {A S : Type} (body : A -> S -> S * flow) (xs ys : list A) (s : S) :
  range body (xs ++ ys) s =
  match range body xs s with
  | (s', Next) => range body ys s'
  | stopped => stopped
  end.
Proof.
  revert s. induction xs as [|x xs IH]; intros s; simpl.
  - reflexivity.
  - destruct (body x s) as [s' [| e |]]; auto.
Qed.

Lemma range_nested {A B S : Type} (inner : A -> list B) (body : B -> S -> S * flow)
    (xs : list A) (s : S) :
  range (fun x => range body (inner x)) xs s = range body (flat_map inner xs) s.
Proof.
  revert s. induction xs as [|x xs IH]; intros s; simpl.
  - reflexivity.
  - rewrite range_app. destruct (range body (inner x) s) as [s' [| e |]]; auto.
Qed.

Lemma fold_left_append {A : Type} (xs acc : list A) :
  fold_left (fun ports p => ports ++ [p]) xs acc = acc ++ xs.
Proof.
  revert acc. induction xs as [|x xs IH]; intros acc; simpl.
  - now rewrite app_nil_r.
  - rewrite IH, <- app_assoc. reflexivity.
Qed.

Lemma allPorts_flat_map (app : App) :
  allPorts app = flat_map Container_Ports (App_Containers app).
Proof.
  unfold allPorts.
  enough (H : forall cs acc,
    fold_left (fun ports c => fold_left (fun ports p => ports ++ [p])
                                (Container_Ports c) ports) cs acc
    = acc ++ flat_map Container_Ports cs) by apply (H _ []).
  induction cs as [|c cs IH]; intros acc; simpl.
  - now rewrite app_nil_r.
  - rewrite IH, fold_left_append, <- app_assoc. reflexivity.
Qed.

(** ** Facts about declared volumes *)

Lemma isVolumeDefined_in_firstNamed (vs : list Volume) (name : string) :
  isVolumeDefined_in vs name = match firstNamed name vs with Some _ => true | None => false end.
Proof.
  induction vs as [|v vs IH]; simpl; [reflexivity|].
  destruct (String.eqb name (Volume_Name v)); auto.
Qed.

Lemma firstNamed_name (name : string) (vs : list Volume) (v : Volume) :
  firstNamed name vs = Some v -> Volume_Name v = name /\ In v vs.
Proof.
  intros H. apply find_some in H as [Hin Heq].
  apply String.eqb_eq in Heq. auto.
Qed.

Lemma searchVolumeIndex_from_spec (vs : list Volume) (name : string) (i : Z) :
  match firstNamed name vs with
  | Some v => exists k : nat,
      searchVolumeIndex_from vs name i = i + Z.of_nat k /\ vs !! k = Some v
  | None => searchVolumeIndex_from vs name i = -1
  end.
Proof.
  revert i. induction vs as [|v vs IH]; intros i; simpl; [reflexivity|].
  destruct (String.eqb name (Volume_Name v)).
  - exists 0%nat. split; [lia | reflexivity].
  - specialize (IH (i + 1)). destruct (firstNamed name vs) as [w|]; [|exact IH].
    destruct IH as (k & Hk & Hw). exists (S k). split; [lia | exact Hw].
Qed.

(** Indexing at the position [searchVolumeIndex] returns yields the first
    declaration of that name; when there is none the index is [-1] and
    indexing would panic. *)
Lemma index_searchVolumeIndex (app : App) (name : string) :
  index (App_PersistentVolumes app) (searchVolumeIndex app name)
  = firstNamed name (App_PersistentVolumes app).
Proof.
  unfold searchVolumeIndex, index.
  pose proof (searchVolumeIndex_from_spec (App_PersistentVolumes app) name 0) as H.
  destruct (firstNamed name (App_PersistentVolumes app)) as [v|].
  - destruct H as (k & -> & Hk).
    destruct (Z.ltb_spec (0 + Z.of_nat k) 0); [lia|].
    replace (Z.to_nat (0 + Z.of_nat k)) with k by lia. exact Hk.
  - rewrite H. reflexivity.
Qed.

Lemma firstNamed_app (name : string) (vs ws : list Volume) :
  firstNamed name (vs ++ ws) =
  match firstNamed name vs with
  | Some v => Some v
  | None => firstNamed name ws
  end.
Proof.
  induction vs as [|v vs IH]; simpl; [reflexivity|].
  destruct (String.eqb name (Volume_Name v)); auto.
Qed.

Lemma firstNamed_defaultVolume (n m : string) :
  firstNamed n [defaultVolume m] = if String.eqb n m then Some (defaultVolume m) else None.
Proof. reflexivity. Qed.

(** Declaring a mount never changes what any name resolves to. *)
Lemma resolve_declare (vs : list Volume) (m n : string) :
  resolve (declare vs m) n = resolve vs n.
Proof.
  unfold declare. rewrite isVolumeDefined_in_firstNamed.
  destruct (firstNamed m vs) as [w|] eqn:Hm; [reflexivity|].
  unfold resolve. rewrite firstNamed_app, firstNamed_defaultVolume.
  destruct (firstNamed n vs) as [v|]; [reflexivity|].
  destruct (String.eqb_spec n m) as [->|]; reflexivity.
Qed.

(** After declaring a mount, its name is declared and resolves as before. *)
Lemma firstNamed_declare (vs : list Volume) (n : string) :
  firstNamed n (declare vs n) = Some (resolve vs n).
Proof.
  unfold declare, resolve. rewrite isVolumeDefined_in_firstNamed.
  destruct (firstNamed n vs) as [v|] eqn:Hn; [exact Hn|].
  rewrite firstNamed_app, Hn, firstNamed_defaultVolume, String.eqb_refl. reflexivity.
Qed.

Lemma resolve_declare_all (ns : list string) (vs : list Volume) (n : string) :
  resolve (fold_left declare ns vs) n = resolve vs n.
Proof.
  revert vs. induction ns as [|m ns IH]; intros vs; simpl; [reflexivity|].
  rewrite IH. apply resolve_declare.
Qed.

Lemma firstNamed_declare_stable (vs : list Volume) (m n : string) (v : Volume) :
  firstNamed n vs = Some v -> firstNamed n (declare vs m) = Some v.
Proof.
  intros H. unfold declare. destruct (isVolumeDefined_in vs m); [exact H|].
  rewrite firstNamed_app, H. reflexivity.
Qed.

Lemma firstNamed_declare_all (ns : list string) (vs : list Volume) (n : string) :
  In n ns -> firstNamed n (fold_left declare ns vs) = Some (resolve vs n).
Proof.
  revert vs. induction ns as [|m ns IH]; intros vs Hin; simpl; [destruct Hin|].
  destruct (in_dec string_dec n ns) as [Hn|Hn].
  - rewrite (IH _ Hn). f_equal. apply resolve_declare.
  - destruct Hin as [->|Hin]; [|contradiction].
    clear IH Hn. pose proof (firstNamed_declare vs n) as H.
    revert H. generalize (declare vs n) as ws. generalize (resolve vs n) as v.
    induction ns as [|m ns IH]; intros v ws H; simpl; [exact H|].
    apply IH. now apply firstNamed_declare_stable.
Qed.

(** The declared volumes only grow, at the end, by default volumes: one for
    each mounted name that was not declared, and no name twice. *)
Lemma declare_all_shape (ns : list string) (vs : list Volume) :
  exists news : list string,
    fold_left declare ns vs = vs ++ map defaultVolume news /\
    List.NoDup news /\
    forall n, In n news <-> In n ns /\ isVolumeDefined_in vs n = false.
Proof.
  revert vs. induction ns as [|m ns IH]; intros vs; simpl.
  - exists []. rewrite app_nil_r. split; [reflexivity|]. split; [constructor|].
    intros n. simpl. tauto.
  - destruct (IH (declare vs m)) as (news & Heq & Hnd & Hin). unfold declare in *.
    destruct (isVolumeDefined_in vs m) eqn:Hm.
    + exists news. split; [exact Heq|]. split; [exact Hnd|].
      intros n. rewrite Hin. split.
      * intros [H1 H2]. auto.
      * intros [[->|H1] H2]; [congruence | auto].
    + exists (m :: news). split; [rewrite Heq, <- app_assoc; reflexivity|].
      assert (Hdef : forall n, isVolumeDefined_in (vs ++ [defaultVolume m]) n
                               = isVolumeDefined_in vs n || String.eqb n m).
      { intros n. rewrite !isVolumeDefined_in_firstNamed, firstNamed_app, firstNamed_defaultVolume.
        destruct (firstNamed n vs); [reflexivity|]. destruct (String.eqb n m); reflexivity. }
      split.
      * constructor; [|exact Hnd]. intros Hc. apply Hin in Hc as [_ Hc].
        rewrite Hdef, String.eqb_refl, orb_true_r in Hc. discriminate.
      * intros n. simpl. rewrite Hin, Hdef. destruct (String.eqb_spec n m) as [->|Hne].
        -- rewrite orb_true_r. split; [intros [_|[_ H]]; [auto | discriminate] | auto].
        -- rewrite orb_false_r. split.
           ++ intros [->|[H1 H2]]; [contradiction | auto].
           ++ intros [[->|H1] H2]; [contradiction | auto].
Qed.

(** ** Facts about the volume and claim pass *)

(** Exposes the fields of a descriptor written with the setters. *)
Ltac app_fields :=
  unfold App_Volumes, App_Containers, set_Volumes, set_Containers, set_Labels,
    set_Expose, set_PersistentVolumes, set_PodSpec in *;
  simpl in *.

Section VolumePass.

Context {Quantity : Type}.
Variable ParseQuantity : string -> result Quantity.

Lemma createPVC_Ok (v : Volume) (pvc : PersistentVolumeClaim Quantity) :
  createPVC ParseQuantity v = Ok pvc <->
  exists size,
    ParseQuantity (Volume_Size v) = Ok size /\
    pvc = {| PersistentVolumeClaim_ObjectMeta :=
               {| ObjectMeta_Name := Volume_Name v; ObjectMeta_Labels := None |};
             PersistentVolumeClaim_Spec :=
               {| PersistentVolumeClaimSpec_AccessModes := [ReadWriteOnce];
                  PersistentVolumeClaimSpec_Resources :=
                    {| ResourceRequirements_Requests := {[ ResourceStorage := size ]} |} |} |}.
Proof.
  unfold createPVC. destruct (ParseQuantity (Volume_Size v)) as [size|e]; split.
  - intros [= <-]. eauto.
  - intros (s & [= <-] & ->). reflexivity.
  - discriminate.
  - intros (s & [=] & _).
Qed.

Lemma createPVC_Err (v : Volume) (e : error) :
  createPVC ParseQuantity v = Err e <->
  exists e0, ParseQuantity (Volume_Size v) = Err e0 /\
             e = Wrap e0 "could not read volume size".
Proof.
  unfold createPVC. destruct (ParseQuantity (Volume_Size v)) as [size|e0]; split.
  - discriminate.
  - intros (e1 & [=] & _).
  - intros [= <-]. eauto.
  - intros (e1 & [= <-] & ->). reflexivity.
Qed.

(** One iteration of the inner loop, in terms of [declare] and [resolve]:
    the pod volume is appended, the mount is declared if it was not, and the
    claim is built from the volume the name resolves to.  No iteration
    panics. *)
Lemma mountBody_spec (vm : VolumeMount) (app : App) (pvcs : list (Object Quantity)) :
  let n := VolumeMount_Name vm in
  let app1 := set_PersistentVolumes
                (set_Volumes app (App_Volumes app ++ [podVolume n]))
                (declare (App_PersistentVolumes app) n) in
  mountBody ParseQuantity vm (app, pvcs) =
  match createPVC ParseQuantity (resolve (App_PersistentVolumes app) n) with
  | Ok pvc => ((app1, pvcs ++ [ObjPersistentVolumeClaim pvc]), Next)
  | Err err => ((app1, pvcs), Return (Wrap err "cannot create pvc"))
  end.
Proof.
  intros n app1. subst app1. unfold mountBody. fold n.
  rewrite index_searchVolumeIndex.
  unfold isVolumeDefined, declare, resolve.
  change (App_PersistentVolumes (set_Volumes app (App_Volumes app ++ [podVolume n])))
    with (App_PersistentVolumes app).
  rewrite isVolumeDefined_in_firstNamed.
  destruct (firstNamed n (App_PersistentVolumes app)) as [v|] eqn:Hn.
  - destruct app as [nm rp ex lb pvs ps]; reflexivity.
  - reflexivity.
Qed.

(** Whatever way the pass over the mounts [vms] ends, it has processed a
    prefix [done] of the mount names: one pod volume was appended per
    processed mount, the processed names were declared, and every processed
    mount but a failing last one contributed the claim of the volume its
    name resolves to. *)
Lemma range_mountBody_spec (vms : list VolumeMount) :
  forall (app : App) (pvcs : list (Object Quantity)) app' pvcs' f,
    range (mountBody ParseQuantity) vms (app, pvcs) = ((app', pvcs'), f) ->
    exists (done : list string) (claims : list (PersistentVolumeClaim Quantity)),
      (exists rest, map VolumeMount_Name vms = done ++ rest) /\
      sameOutsideVolumes app app' /\
      App_Volumes app' = App_Volumes app ++ map podVolume done /\
      App_PersistentVolumes app' = fold_left declare done (App_PersistentVolumes app) /\
      pvcs' = pvcs ++ map ObjPersistentVolumeClaim claims /\
      match f with
      | Next =>
          done = map VolumeMount_Name vms /\
          Forall2 (fun n pvc => createPVC ParseQuantity (resolve (App_PersistentVolumes app) n) = Ok pvc)
                  done claims
      | Return err =>
          exists pre n e0,
            done = pre ++ [n] /\
            Forall2 (fun n pvc => createPVC ParseQuantity (resolve (App_PersistentVolumes app) n) = Ok pvc)
                    pre claims /\
            ParseQuantity (Volume_Size (resolve (App_PersistentVolumes app) n)) = Err e0 /\
            err = Wrap (Wrap e0 "could not read volume size") "cannot create pvc"
      | Panic => False
      end.
Proof.
  induction vms as [|vm vms IH]; intros app pvcs app' pvcs' f; cbn [range map].
  - intros [= <- <- <-]. exists [], []. simpl. rewrite !app_nil_r.
    repeat split; try reflexivity; [exists []; reflexivity | constructor].
  - rewrite mountBody_spec.
    set (n := VolumeMount_Name vm).
    set (app1 := set_PersistentVolumes _ _).
    destruct (createPVC ParseQuantity (resolve (App_PersistentVolumes app) n)) as [pvc|e] eqn:Hc.
    + intros H. apply IH in H as (done & claims & [rest Hrest] & Hsame & Hvol & Hpv & Hpvcs & Hf).
      exists (n :: done), (pvc :: claims).
      assert (Hres : forall m, resolve (App_PersistentVolumes app1) m
                               = resolve (App_PersistentVolumes app) m)
        by (intros m; apply resolve_declare).
      split; [exists rest; simpl; now rewrite Hrest|].
      split; [exact Hsame|].
      split; [rewrite Hvol; subst app1; app_fields; now rewrite <- app_assoc|].
      split; [rewrite Hpv; reflexivity|].
      split; [rewrite Hpvcs, <- app_assoc; reflexivity|].
      destruct f as [| err |]; [| |exact Hf].
      * destruct Hf as [-> Hall]. split; [reflexivity|]. constructor; [exact Hc|].
        eapply Forall2_impl; [exact Hall|]. intros m p Hm. now rewrite <- Hres.
      * destruct Hf as (pre & m & e0 & -> & Hall & Hparse & ->).
        exists (n :: pre), m, e0. split; [reflexivity|].
        split; [|split; [now rewrite <- Hres | reflexivity]].
        constructor; [exact Hc|].
        eapply Forall2_impl; [exact Hall|]. intros k p Hk. now rewrite <- Hres.
    + intros [= <- <- <-]. apply createPVC_Err in Hc as (e0 & Hparse & ->).
      exists [n], []. simpl. rewrite app_nil_r.
      split; [exists (map VolumeMount_Name vms); reflexivity|].
      split; [subst app1; repeat split|].
      split; [subst app1; reflexivity|].
      split; [reflexivity|]. split; [reflexivity|].
      exists [], n, e0. repeat split; try reflexivity; [constructor | exact Hparse].
Qed.

Lemma inferVolumes_range (app : App) :
  inferVolumes ParseQuantity app = range (mountBody ParseQuantity) (allMounts app) (app, []).
Proof. unfold inferVolumes, containerBody, allMounts. apply range_nested. Qed.

End VolumePass.

(** ** Facts about [CreateK8sObjects] *)

Lemma defaultLabels_fields (app : App) :
  App_Name (defaultLabels app) = App_Name app /\
  App_Replicas (defaultLabels app) = App_Replicas app /\
  App_Expose (defaultLabels app) = App_Expose app /\
  App_PersistentVolumes (defaultLabels app) = App_PersistentVolumes app /\
  App_PodSpec (defaultLabels app) = App_PodSpec app.
Proof. unfold defaultLabels. destruct (App_Labels app); repeat split. Qed.

Lemma defaultLabels_mounts (app : App) : allMounts (defaultLabels app) = allMounts app.
Proof.
  unfold allMounts, App_Containers.
  now destruct (defaultLabels_fields app) as (_ & _ & _ & _ & ->).
Qed.

Lemma defaultLabels_PersistentVolumes (app : App) :
  App_PersistentVolumes (defaultLabels app) = App_PersistentVolumes app.
Proof. apply defaultLabels_fields. Qed.

Lemma defaultLabels_Volumes (app : App) :
  App_Volumes (defaultLabels app) = App_Volumes app.
Proof.
  unfold App_Volumes. now destruct (defaultLabels_fields app) as (_ & _ & _ & _ & ->).
Qed.

(** The single-container name default never panics and only touches the
    container list. *)
Lemma defaultContainerName_spec (app : App) :
  exists app2,
    defaultContainerName app = Some app2 /\
    App_Name app2 = App_Name app /\ App_Replicas app2 = App_Replicas app /\
    App_Expose app2 = App_Expose app /\ App_Labels app2 = App_Labels app /\
    App_PersistentVolumes app2 = App_PersistentVolumes app /\
    App_Volumes app2 = App_Volumes app.
Proof.
  unfold defaultContainerName.
  destruct (Nat.eqb_spec (length (App_Containers app)) 1) as [Hlen|Hlen].
  - destruct (App_Containers app) as [|c0 cs] eqn:Hcs; [discriminate|]. simpl.
    destruct (String.eqb (Container_Name c0) ""); eexists; repeat split.
  - eexists; repeat split.
Qed.

Section SynthesisFacts.

Context {Quantity : Type}.
Variable ParseQuantity : string -> result Quantity.

(** How a call ends: never by a panic; with an error exactly when the volume
    pass returned one; otherwise with the deployment, the service pointer
    and the claims, in that order. *)
Lemma CreateK8sObjects_unfold (app app' : App) (r : outcome (result (list (Object Quantity)))) :
  CreateK8sObjects ParseQuantity app = (app', r) ->
  exists app1 pvcs f,
    inferVolumes ParseQuantity (defaultLabels app) = ((app1, pvcs), f) /\
    match f with
    | Next =>
        defaultContainerName app1 = Some app' /\
        r = Returns (Ok (ObjDeployment (createDeployment app')
                          :: ObjService (buildService (defaultLabels app)) :: pvcs))
    | Return err => app' = app1 /\ r = Returns (Err err)
    | Panic => False
    end.
Proof.
  unfold CreateK8sObjects.
  destruct (inferVolumes ParseQuantity (defaultLabels app)) as [[app1 pvcs] f] eqn:Hpass.
  pose proof Hpass as Hpass'. rewrite inferVolumes_range in Hpass'.
  apply range_mountBody_spec in Hpass' as (done & claims & _ & _ & _ & _ & _ & Hf).
  destruct f as [| err |]; [| |destruct Hf].
  - destruct (defaultContainerName_spec app1) as (app2 & Happ2 & _). rewrite Happ2.
    intros [= <- <-]. exists app1, pvcs, Next. auto.
  - intros [= <- <-]. exists app1, pvcs, (Return err). auto.
Qed.

Lemma CreateK8sObjects_no_panic (app : App) :
  snd (CreateK8sObjects ParseQuantity app) <> Panics.
Proof.
  destruct (CreateK8sObjects ParseQuantity app) as [app' r] eqn:H.
  apply CreateK8sObjects_unfold in H as (app1 & pvcs & f & _ & Hf).
  destruct f; simpl; [destruct Hf as [_ ->] | destruct Hf as [_ ->] | destruct Hf]; discriminate.
Qed.

(** A successful call, in full. *)
Lemma CreateK8sObjects_Ok (app app' : App) (objs : list (Object Quantity)) :
  CreateK8sObjects ParseQuantity app = (app', Returns (Ok objs)) ->
  exists claims : list (PersistentVolumeClaim Quantity),
    objs = ObjDeployment (createDeployment app')
             :: ObjService (buildService (defaultLabels app))
             :: map ObjPersistentVolumeClaim claims /\
    App_Name app' = App_Name app /\
    App_Labels app' = App_Labels (defaultLabels app) /\
    App_Volumes app' = App_Volumes app ++ map podVolume (mountNames app) /\
    App_PersistentVolumes app' =
      fold_left declare (mountNames app) (App_PersistentVolumes app) /\
    Forall2 (fun n pvc =>
               createPVC ParseQuantity (resolve (App_PersistentVolumes app) n) = Ok pvc)
            (mountNames app) claims.
Proof.
  intros H. apply CreateK8sObjects_unfold in H as (app1 & pvcs & f & Hpass & Hf).
  rewrite inferVolumes_range in Hpass.
  apply range_mountBody_spec in Hpass
    as (done & claims & _ & Hsame & Hvol & Hpv & Hpvcs & Hdone).
  destruct f as [| err |]; [| destruct Hf as [_ [=]] | destruct Hf].
  destruct Hf as [Hname [= ->]]. destruct Hdone as [-> Hall].
  destruct (defaultContainerName_spec app1) as (app2 & Happ2 & Hn & _ & _ & Hl & Hp & Hv).
  rewrite Hname in Happ2. injection Happ2 as <-.
  destruct Hsame as (Hsn & _ & _ & Hsl & _).
  rewrite defaultLabels_mounts, defaultLabels_PersistentVolumes, defaultLabels_Volumes in *.
  exists claims. simpl in Hpvcs. subst pvcs.
  split; [reflexivity|].
  split; [rewrite Hn, <- Hsn; apply defaultLabels_fields|].
  split; [now rewrite Hl, <- Hsl|].
  split; [now rewrite Hv|].
  split; [now rewrite Hp|].
  exact Hall.
Qed.

(** A call however it ends: what it has done to the descriptor. *)
Lemma CreateK8sObjects_descriptor (app app' : App) (r : outcome (result (list (Object Quantity)))) :
  CreateK8sObjects ParseQuantity app = (app', r) ->
  exists done rest : list string,
    mountNames app = done ++ rest /\
    (forall objs, r = Returns (Ok objs) -> rest = []) /\
    App_Name app' = App_Name app /\
    App_Labels app' = App_Labels (defaultLabels app) /\
    App_Volumes app' = App_Volumes app ++ map podVolume done /\
    App_PersistentVolumes app' = fold_left declare done (App_PersistentVolumes app).
Proof.
  intros H. apply CreateK8sObjects_unfold in H as (app1 & pvcs & f & Hpass & Hf).
  rewrite inferVolumes_range in Hpass.
  apply range_mountBody_spec in Hpass
    as (done & claims & [rest Hrest] & Hsame & Hvol & Hpv & Hpvcs & Hdone).
  destruct Hsame as (Hsn & _ & _ & Hsl & _).
  rewrite defaultLabels_mounts, defaultLabels_PersistentVolumes, defaultLabels_Volumes in *.
  assert (Hn0 : App_Name (defaultLabels app) = App_Name app) by apply defaultLabels_fields.
  exists done, rest. split; [exact Hrest|].
  destruct f as [| err |]; [| |destruct Hf].
  - destruct Hf as [Hname ->]. destruct Hdone as [-> _].
    destruct (defaultContainerName_spec app1) as (app2 & Happ2 & Hn & _ & _ & Hl & Hp & Hv).
    rewrite Hname in Happ2. injection Happ2 as <-.
    split.
    { intros _ _. unfold mountNames in Hrest.
      apply (f_equal (@length _)) in Hrest. rewrite length_app in Hrest.
      destruct rest; [reflexivity | simpl in Hrest; lia]. }
    repeat split; congruence.
  - destruct Hf as [-> ->]. split; [discriminate|]. repeat split; congruence.
Qed.

(** When a call fails: some mount resolves to a size that does not parse, and
    the error names both stages. *)
Lemma CreateK8sObjects_Err (app app' : App) (err : error) :
  CreateK8sObjects ParseQuantity app = (app', Returns (Err err)) ->
  exists n e0,
    In n (mountNames app) /\
    ParseQuantity (Volume_Size (resolve (App_PersistentVolumes app) n)) = Err e0 /\
    err = Wrap (Wrap e0 "could not read volume size") "cannot create pvc".
Proof.
  intros H. apply CreateK8sObjects_unfold in H as (app1 & pvcs & f & Hpass & Hf).
  rewrite inferVolumes_range in Hpass.
  apply range_mountBody_spec in Hpass
    as (done & claims & [rest Hrest] & _ & _ & _ & _ & Hdone).
  rewrite defaultLabels_mounts, defaultLabels_PersistentVolumes in *.
  destruct f as [| e |]; [destruct Hf as [_ [=]] | | destruct Hf].
  destruct Hf as [_ [= ->]]. destruct Hdone as (pre & n & e0 & -> & _ & Hparse & ->).
  exists n, e0. split; [|auto].
  unfold mountNames. rewrite Hrest, !in_app_iff. simpl. auto.
Qed.

End SynthesisFacts.

(** ** The service *)

Lemma fold_left_servicePorts (ports : list ContainerPort) (svc : Service) :
  fold_left
    (fun svc p =>
       Service_set_Ports svc (ServiceSpec_Ports (Service_Spec svc) ++ [servicePort p]))
    ports svc
  = Service_set_Ports svc (ServiceSpec_Ports (Service_Spec svc) ++ map servicePort ports).
Proof.
  revert svc. induction ports as [|p ports IH]; intros svc; simpl.
  - rewrite app_nil_r. destruct svc as [meta [t ps sel]]. reflexivity.
  - rewrite IH. unfold Service_set_Ports. simpl. now rewrite <- app_assoc.
Qed.

(** The service pointer is nil exactly when no container declares a port;
    otherwise the service carries the descriptor's name and labels, the
    labels as selector, one port per aggregated port, and the type the
    [expose] flag selects. *)
Lemma buildService_spec (app : App) :
  buildService app =
  match allPorts app with
  | [] => None
  | _ :: _ =>
      Some {| Service_ObjectMeta := {| ObjectMeta_Name := App_Name app;
                                       ObjectMeta_Labels := App_Labels app |};
              Service_Spec :=
                {| ServiceSpec_Type := if App_Expose app then ServiceTypeLoadBalancer
                                       else ServiceTypeUnset;
                   ServiceSpec_Ports := map servicePort (allPorts app);
                   ServiceSpec_Selector := App_Labels app |} |}
  end.
Proof.
  unfold buildService. destruct (allPorts app) as [|p ports]; [reflexivity|].
  cbn [length Nat.ltb Nat.leb]. rewrite fold_left_servicePorts.
  destruct (App_Expose app); reflexivity.
Qed.

Lemma defaultLabels_allPorts (app : App) : allPorts (defaultLabels app) = allPorts app.
Proof.
  rewrite !allPorts_flat_map. unfold App_Containers.
  now destruct (defaultLabels_fields app) as (_ & _ & _ & _ & ->).
Qed.

Lemma int32_in_range (x : Z) : in_int32 x -> int32 x = x.
Proof.
  unfold in_int32, int32. intros H.
  rewrite Z.mod_small by lia. lia.
Qed.

(** Without ports the second element of the result is the nil service
    pointer, whatever the descriptor. *)
Lemma CreateK8sObjects_without_ports {Quantity : Type}
    (ParseQuantity : string -> result Quantity) (app app' : App)
    (objs : list (Object Quantity)) :
  allPorts app = [] ->
  CreateK8sObjects ParseQuantity app = (app', Returns (Ok objs)) ->
  exists claims,
    objs = ObjDeployment (createDeployment app') :: ObjService None
             :: map ObjPersistentVolumeClaim claims.
Proof.
  intros Hports H. apply CreateK8sObjects_Ok in H as (claims & -> & _).
  exists claims. rewrite buildService_spec, defaultLabels_allPorts, Hports. reflexivity.
Qed.

(** C1 (the code departs from it).  The claim: with zero container ports the
    returned sequence holds no exposure entry at all, not even a null one.
    The code appends the service pointer unconditionally; for the descriptor
    [app_no_ports] the sequence is the deployment followed by a nil service
    pointer. *)
Theorem C1_nil_service_emitted_without_ports :
  exists d : Deployment,
    snd (CreateK8sObjects Sample.ParseQuantity app_no_ports)
    = Returns (Ok [ObjDeployment d; ObjService None]).
Proof. eexists. vm_compute. reflexivity. Qed.

(** C7.  With at least one container port and a successful synthesis: the
    aggregated ports are the containers' ports concatenated in container
    order (nothing dropped or merged); the second object is a service with
    one port per aggregated port, in the same order; each is named
    "port-<containerPort>" and carries the same number as port and as target
    port, which is the container port itself (a 32-bit value). *)
Theorem C7_service_ports_follow_container_ports {Quantity : Type}
    (ParseQuantity : string -> result Quantity) (app app' : App)
    (objs : list (Object Quantity)) :
  allPorts app <> [] ->
  CreateK8sObjects ParseQuantity app = (app', Returns (Ok objs)) ->
  allPorts app = flat_map Container_Ports (App_Containers app) /\
  exists d svc claims,
    objs = ObjDeployment d :: ObjService (Some svc)
             :: map ObjPersistentVolumeClaim claims /\
    Forall2
      (fun p sp =>
         ServicePort_Name sp = "port-" +:+ pretty (ContainerPort_ContainerPort p) /\
         ServicePort_Port sp = int32 (ContainerPort_ContainerPort p) /\
         ServicePort_TargetPort sp = IntVal (ServicePort_Port sp) /\
         (in_int32 (ContainerPort_ContainerPort p) ->
          ServicePort_Port sp = ContainerPort_ContainerPort p))
      (allPorts app) (ServiceSpec_Ports (Service_Spec svc)).
Proof.
  intros Hports H. split; [apply allPorts_flat_map|].
  apply CreateK8sObjects_Ok in H as (claims & -> & _).
  rewrite buildService_spec, defaultLabels_allPorts.
  destruct (allPorts app) as [|p ports] eqn:Hp; [contradiction|].
  eexists _, _, claims. split; [reflexivity|]. cbn [ServiceSpec_Ports Service_Spec].
  generalize (p :: ports). intros l. induction l as [|q l IH]; simpl; constructor; [|exact IH].
  repeat split. apply int32_in_range.
Qed.

Lemma C7_witness :
  allPorts app_web = flat_map Container_Ports (App_Containers app_web) /\
  exists d svc claims,
    ranObjects app_web = ObjDeployment d :: ObjService (Some svc)
                           :: map ObjPersistentVolumeClaim claims /\
    Forall2
      (fun p sp =>
         ServicePort_Name sp = "port-" +:+ pretty (ContainerPort_ContainerPort p) /\
         ServicePort_Port sp = int32 (ContainerPort_ContainerPort p) /\
         ServicePort_TargetPort sp = IntVal (ServicePort_Port sp) /\
         (in_int32 (ContainerPort_ContainerPort p) ->
          ServicePort_Port sp = ContainerPort_ContainerPort p))
      (allPorts app_web) (ServiceSpec_Ports (Service_Spec svc)).
Proof.
  apply (C7_service_ports_follow_container_ports Sample.ParseQuantity
           app_web (ranDescriptor app_web) (ranObjects app_web)).
  - vm_compute. discriminate.
  - vm_compute. reflexivity.
Defined.

(** Scenario A of the specification, evaluated. *)
Example scenario_A_service_port :
  exists d svc,
    ranObjects app_web = [ObjDeployment d; ObjService (Some svc)] /\
    ServiceSpec_Ports (Service_Spec svc)
      = [{| ServicePort_Name := "port-8080"; ServicePort_Port := 8080;
            ServicePort_TargetPort := IntVal 8080 |}] /\
    ServiceSpec_Type (Service_Spec svc) = ServiceTypeUnset /\
    map Container_Name
      (PodSpec_Containers (PodTemplateSpec_Spec (DeploymentSpec_Template (Deployment_Spec d))))
      = ["web"].
Proof. eexists _, _. vm_compute. repeat split. Qed.




(** ** The [expose] flag *)

Section Expose.

Context {Quantity : Type}.
Variable ParseQuantity : string -> result Quantity.

Lemma defaultLabels_set_Expose (app : App) (b : bool) :
  defaultLabels (set_Expose app b) = set_Expose (defaultLabels app) b.
Proof. unfold defaultLabels. simpl. destruct (App_Labels app); reflexivity. Qed.

Lemma mountBody_set_Expose (vm : VolumeMount) (app : App) (b : bool)
    (pvcs : list (Object Quantity)) :
  mountBody ParseQuantity vm (set_Expose app b, pvcs) =
  match mountBody ParseQuantity vm (app, pvcs) with
  | ((app', pvcs'), f) => ((set_Expose app' b, pvcs'), f)
  end.
Proof.
  rewrite !mountBody_spec. cbn zeta.
  change (App_PersistentVolumes (set_Expose app b)) with (App_PersistentVolumes app).
  destruct (createPVC ParseQuantity _); reflexivity.
Qed.

Lemma range_mountBody_set_Expose (vms : list VolumeMount) (app : App) (b : bool)
    (pvcs : list (Object Quantity)) :
  range (mountBody ParseQuantity) vms (set_Expose app b, pvcs) =
  match range (mountBody ParseQuantity) vms (app, pvcs) with
  | ((app', pvcs'), f) => ((set_Expose app' b, pvcs'), f)
  end.
Proof.
  revert app pvcs. induction vms as [|vm vms IH]; intros app pvcs; cbn [range].
  - reflexivity.
  - rewrite mountBody_set_Expose.
    destruct (mountBody ParseQuantity vm (app, pvcs)) as [[app1 pvcs1] [| err |]];
      [apply IH | reflexivity | reflexivity].
Qed.

Lemma defaultContainerName_set_Expose (app : App) (b : bool) :
  defaultContainerName (set_Expose app b)
  = option_map (fun app' => set_Expose app' b) (defaultContainerName app).
Proof.
  unfold defaultContainerName.
  change (App_Containers (set_Expose app b)) with (App_Containers app).
  destruct (length (App_Containers app) =? 1)%nat; [|reflexivity].
  destruct (App_Containers app !! 0%nat) as [c0|]; [|reflexivity].
  destruct (String.eqb (Container_Name c0) ""); reflexivity.
Qed.

Lemma buildService_set_Expose (app : App) :
  buildService (set_Expose app true)
  = option_map (fun svc => Service_set_Type svc ServiceTypeLoadBalancer)
      (buildService (set_Expose app false)).
Proof.
  rewrite !buildService_spec.
  change (allPorts (set_Expose app true)) with (allPorts app).
  change (allPorts (set_Expose app false)) with (allPorts app).
  destruct (allPorts app); reflexivity.
Qed.

(** C8.  Synthesis with [expose] set is synthesis with [expose] cleared,
    except that the flag stays set in the descriptor and the service, when
    there is one, has type LoadBalancer; the deployment and the claims are
    the same, and so is a failure.  In every successful result the type of
    the service is LoadBalancer when [expose] is true and is left unset
    otherwise. *)
Theorem C8_expose_only_selects_service_type (app : App) :
  CreateK8sObjects ParseQuantity (set_Expose app true)
  = (set_Expose (fst (CreateK8sObjects ParseQuantity (set_Expose app false))) true,
     exposeResult (snd (CreateK8sObjects ParseQuantity (set_Expose app false)))) /\
  forall app' objs svc,
    CreateK8sObjects ParseQuantity app = (app', Returns (Ok objs)) ->
    In (ObjService (Some svc)) objs ->
    ServiceSpec_Type (Service_Spec svc)
    = if App_Expose app then ServiceTypeLoadBalancer else ServiceTypeUnset.
Proof.
  split.
  - unfold CreateK8sObjects. rewrite !defaultLabels_set_Expose, !inferVolumes_range.
    change (allMounts (set_Expose (defaultLabels app) true)) with (allMounts (defaultLabels app)).
    change (allMounts (set_Expose (defaultLabels app) false)) with (allMounts (defaultLabels app)).
    rewrite !range_mountBody_set_Expose, buildService_set_Expose.
    destruct (range (mountBody ParseQuantity) (allMounts (defaultLabels app))
                (defaultLabels app, [])) as [[app1 pvcs] [| err |]] eqn:Hpass;
      [| reflexivity | reflexivity].
    rewrite !defaultContainerName_set_Expose.
    destruct (defaultContainerName_spec app1) as (app2 & -> & _). cbn.
    apply range_mountBody_spec in Hpass as (done & claims & _ & _ & _ & _ & -> & _).
    cbn. rewrite map_map. cbn.
    destruct (buildService (set_Expose (defaultLabels app) false)); reflexivity.
  - intros app' objs svc H Hin.
    apply CreateK8sObjects_Ok in H as (claims & -> & _).
    destruct Hin as [Hin | [Hin | Hin]]; [discriminate | |].
    + injection Hin as Hin. rewrite buildService_spec in Hin.
      destruct (allPorts (defaultLabels app)); [discriminate|].
      injection Hin as <-. cbn.
      now destruct (defaultLabels_fields app) as (_ & _ & -> & _).
    + apply in_map_iff in Hin as (pvc & [=] & _).
Qed.

End Expose.

Lemma C8_witness :
  exists svc,
    In (ObjService (Some svc)) (ranObjects (set_Expose app_web true)) /\
    ServiceSpec_Type (Service_Spec svc) = ServiceTypeLoadBalancer.
Proof.
  eexists. split.
  - vm_compute. right. left. reflexivity.
  - apply (proj2 (C8_expose_only_selects_service_type Sample.ParseQuantity
                    (set_Expose app_web true))
             (ranDescriptor (set_Expose app_web true))
             (ranObjects (set_Expose app_web true))).
    + vm_compute. reflexivity.
    + vm_compute. right. left. reflexivity.
Defined.

(** Scenario B of the specification, evaluated: the objects for [app_web]
    with [expose] set are those without it, the service made load-balanced. *)
Example scenario_B_expose :
  ranObjects (set_Expose app_web true) = map exposeService (ranObjects app_web).
Proof. vm_compute. reflexivity. Qed.

(** ** Volumes and claims *)

Lemma countNamed_app {A : Type} (name : A -> string) (n : string) (l k : list A) :
  countNamed name n (l ++ k) = (countNamed name n l + countNamed name n k)%nat.
Proof. unfold countNamed. now rewrite List.filter_app, length_app. Qed.

Lemma countNamed_map {A B : Type} (f : A -> B) (name : B -> string) (n : string) (l : list A) :
  countNamed name n (map f l) = countNamed (fun x => name (f x)) n l.
Proof.
  unfold countNamed. induction l as [|x l IH]; simpl; [reflexivity|].
  destruct (String.eqb n (name (f x))); simpl; now rewrite IH.
Qed.

Lemma Forall2_In_l {A B : Type} (R : A -> B -> Prop) (l : list A) (k : list B) (x : A) :
  Forall2 R l k -> In x l -> exists y, In y k /\ R x y.
Proof.
  induction 1 as [|a b l k Hab _ IH]; intros Hin; [destruct Hin|].
  destruct Hin as [->|Hin].
  - exists b. simpl. auto.
  - destruct (IH Hin) as (y & Hy & Hxy). exists y. simpl. auto.
Qed.

Lemma Forall2_In_r {A B : Type} (R : A -> B -> Prop) (l : list A) (k : list B) (y : B) :
  Forall2 R l k -> In y k -> exists x, In x l /\ R x y.
Proof.
  induction 1 as [|a b l k Hab _ IH]; intros Hin; [destruct Hin|].
  destruct Hin as [->|Hin].
  - exists a. simpl. auto.
  - destruct (IH Hin) as (x & Hx & Hxy). exists x. simpl. auto.
Qed.

Lemma Forall2_functional {A B : Type} (R : A -> B -> Prop) (l : list A) (k1 k2 : list B) :
  (forall x y1 y2, R x y1 -> R x y2 -> y1 = y2) ->
  Forall2 R l k1 -> Forall2 R l k2 -> k1 = k2.
Proof.
  intros Hfun H1. revert k2. induction H1 as [|a b l k Hab _ IH]; intros k2 H2.
  - now inversion H2.
  - inversion H2 as [|a' b' l' k' Hab' Hk']; subst. f_equal; eauto.
Qed.

Lemma resolve_name (vs : list Volume) (n : string) : Volume_Name (resolve vs n) = n.
Proof.
  unfold resolve. destruct (firstNamed n vs) as [v|] eqn:H; [|reflexivity].
  now apply firstNamed_name in H.
Qed.

Lemma resolve_undefined (vs : list Volume) (n : string) :
  isVolumeDefined_in vs n = false -> resolve vs n = defaultVolume n.
Proof.
  rewrite isVolumeDefined_in_firstNamed. unfold resolve.
  destruct (firstNamed n vs); [discriminate | reflexivity].
Qed.

Lemma resolve_defined (vs : list Volume) (n : string) :
  isVolumeDefined_in vs n = true -> firstNamed n vs = Some (resolve vs n).
Proof.
  rewrite isVolumeDefined_in_firstNamed. unfold resolve.
  destruct (firstNamed n vs); [reflexivity | discriminate].
Qed.

Lemma In_mountNames (app : App) (vm : VolumeMount) :
  In vm (allMounts app) -> In (VolumeMount_Name vm) (mountNames app).
Proof. intros H. unfold mountNames. apply in_map_iff. eauto. Qed.

Section Claims.

Context {Quantity : Type}.
Variable ParseQuantity : string -> result Quantity.

Lemma createPVC_name (v : Volume) (pvc : PersistentVolumeClaim Quantity) :
  createPVC ParseQuantity v = Ok pvc -> PVC_Name pvc = Volume_Name v.
Proof. intros H. apply createPVC_Ok in H as (size & _ & ->). reflexivity. Qed.

(** The claims carry the mount names, one claim per mount, in mount order. *)
Lemma claims_names (vs : list Volume) (ns : list string)
    (claims : list (PersistentVolumeClaim Quantity)) :
  Forall2 (fun n pvc => createPVC ParseQuantity (resolve vs n) = Ok pvc) ns claims ->
  map PVC_Name claims = ns.
Proof.
  induction 1 as [|n pvc ns claims Hc _ IH]; simpl; [reflexivity|].
  apply createPVC_name in Hc. rewrite Hc, resolve_name, IH. reflexivity.
Qed.

Lemma claimsOf_objects (d : Deployment) (svc : option Service)
    (claims : list (PersistentVolumeClaim Quantity)) :
  claimsOf (ObjDeployment d :: ObjService svc :: map ObjPersistentVolumeClaim claims)
  = claims.
Proof.
  unfold claimsOf. simpl. induction claims as [|c cs IH]; simpl; [reflexivity|].
  now rewrite IH.
Qed.

Lemma In_claim_objects (d : Deployment) (svc : option Service)
    (claims : list (PersistentVolumeClaim Quantity)) (pvc : PersistentVolumeClaim Quantity) :
  In (ObjPersistentVolumeClaim pvc)
     (ObjDeployment d :: ObjService svc :: map ObjPersistentVolumeClaim claims)
  <-> In pvc claims.
Proof.
  simpl. rewrite in_map_iff. split.
  - intros [H|[H|(x & [= ->] & Hx)]]; [discriminate | discriminate | exact Hx].
  - intros H. right. right. eauto.
Qed.

(** C2, as amended.  After a successful synthesis, for every name: the
    pod-level volume list has gained one entry of that name per volume mount
    of that name; one claim of that name is produced per mount of that name;
    and the declared volumes have grown by default entries, no name twice,
    one for exactly the mounted names that were not declared. *)
Theorem C2_one_volume_and_claim_per_mount (app app' : App)
    (objs : list (Object Quantity)) (n : string) :
  CreateK8sObjects ParseQuantity app = (app', Returns (Ok objs)) ->
  countNamed api_Volume_Name n (App_Volumes app')
    = (countNamed api_Volume_Name n (App_Volumes app)
       + countNamed (fun m => m) n (mountNames app))%nat /\
  countNamed PVC_Name n (claimsOf objs) = countNamed (fun m => m) n (mountNames app) /\
  exists news : list string,
    App_PersistentVolumes app' = App_PersistentVolumes app ++ map defaultVolume news /\
    List.NoDup news /\
    (In n news <-> In n (mountNames app) /\ isVolumeDefined app n = false).
Proof.
  intros H. apply CreateK8sObjects_Ok in H as (claims & -> & _ & _ & Hvol & Hpv & Hall).
  split; [|split].
  - rewrite Hvol, countNamed_app, countNamed_map. reflexivity.
  - rewrite claimsOf_objects. apply claims_names in Hall.
    rewrite <- Hall, countNamed_map. reflexivity.
  - destruct (declare_all_shape (mountNames app) (App_PersistentVolumes app))
      as (news & Heq & Hnd & Hin).
    exists news. rewrite Hpv. auto.
Qed.

(** C3.  A mount whose name is not declared, in a successful synthesis: the
    default size parses; the declared volumes have grown by entries among
    which is the one for this name, of size "100Mi"; and the result holds a
    claim of that name requesting the parsed "100Mi", ReadWriteOnce. *)
Theorem C3_undeclared_mount_gets_default_claim (app app' : App)
    (objs : list (Object Quantity)) (vm : VolumeMount) :
  In vm (allMounts app) ->
  isVolumeDefined app (VolumeMount_Name vm) = false ->
  CreateK8sObjects ParseQuantity app = (app', Returns (Ok objs)) ->
  exists size extras pvc,
    ParseQuantity "100Mi" = Ok size /\
    App_PersistentVolumes app' = App_PersistentVolumes app ++ extras /\
    In {| Volume_Volume := podVolume (VolumeMount_Name vm); Volume_Size := "100Mi" |}
       extras /\
    In (ObjPersistentVolumeClaim pvc) objs /\
    PVC_Name pvc = VolumeMount_Name vm /\
    PVC_Requests pvc = {[ ResourceStorage := size ]} /\
    PVC_AccessModes pvc = [ReadWriteOnce].
Proof.
  intros Hvm Hundef H. apply In_mountNames in Hvm.
  apply CreateK8sObjects_Ok in H as (claims & -> & _ & _ & _ & Hpv & Hall).
  destruct (Forall2_In_l _ _ _ _ Hall Hvm) as (pvc & Hpvc & Hc).
  rewrite (resolve_undefined _ _ Hundef) in Hc.
  apply createPVC_Ok in Hc as (size & Hsize & Hpvc_eq).
  destruct (declare_all_shape (mountNames app) (App_PersistentVolumes app))
    as (news & Heq & _ & Hin).
  exists size, (map defaultVolume news), pvc.
  split; [exact Hsize|]. split; [now rewrite Hpv|].
  split; [apply (in_map defaultVolume), Hin; auto|].
  split; [apply In_claim_objects, Hpvc|]. subst pvc. auto.
Qed.

(** C4.  A mount whose name is declared, in a successful synthesis: the size
    of the declaration [searchVolumeIndex] finds parses; the result holds a
    claim of that name requesting it; every claim of that name requests it
    (none is built from the default size); and no entry of that name is
    appended to the declared volumes. *)
Theorem C4_declared_mount_uses_declared_size (app app' : App)
    (objs : list (Object Quantity)) (vm : VolumeMount) :
  In vm (allMounts app) ->
  isVolumeDefined app (VolumeMount_Name vm) = true ->
  CreateK8sObjects ParseQuantity app = (app', Returns (Ok objs)) ->
  exists v size,
    index (App_PersistentVolumes app) (searchVolumeIndex app (VolumeMount_Name vm)) = Some v /\
    Volume_Name v = VolumeMount_Name vm /\
    ParseQuantity (Volume_Size v) = Ok size /\
    (exists pvc, In (ObjPersistentVolumeClaim pvc) objs /\
                 PVC_Name pvc = VolumeMount_Name vm /\
                 PVC_Requests pvc = {[ ResourceStorage := size ]} /\
                 PVC_AccessModes pvc = [ReadWriteOnce]) /\
    (forall pvc, In (ObjPersistentVolumeClaim pvc) objs ->
                 PVC_Name pvc = VolumeMount_Name vm ->
                 PVC_Requests pvc = {[ ResourceStorage := size ]}) /\
    exists extras,
      App_PersistentVolumes app' = App_PersistentVolumes app ++ extras /\
      forall w, In w extras -> Volume_Name w <> VolumeMount_Name vm.
Proof.
  intros Hvm Hdef H. apply In_mountNames in Hvm.
  set (n := VolumeMount_Name vm) in *.
  apply CreateK8sObjects_Ok in H as (claims & -> & _ & _ & _ & Hpv & Hall).
  destruct (Forall2_In_l _ _ _ _ Hall Hvm) as (pvc & Hpvc & Hc).
  apply createPVC_Ok in Hc as (size & Hsize & Hpvc_eq).
  exists (resolve (App_PersistentVolumes app) n), size.
  split; [rewrite index_searchVolumeIndex; now apply resolve_defined|].
  split; [apply resolve_name|]. split; [exact Hsize|].
  split; [|split].
  - exists pvc. split; [apply In_claim_objects, Hpvc|]. subst pvc.
    repeat split. apply resolve_name.
  - intros q Hq Hname. apply In_claim_objects in Hq.
    destruct (Forall2_In_r _ _ _ _ Hall Hq) as (m & _ & Hm).
    pose proof (createPVC_name _ _ Hm) as Hqn. rewrite resolve_name in Hqn.
    assert (Hmn : m = n) by congruence. rewrite Hmn in Hm.
    apply createPVC_Ok in Hm as (size' & Hsize' & ->).
    rewrite Hsize in Hsize'. injection Hsize' as <-. reflexivity.
  - destruct (declare_all_shape (mountNames app) (App_PersistentVolumes app))
      as (news & Heq & _ & Hin).
    exists (map defaultVolume news). split; [now rewrite Hpv|].
    intros w Hw Hname. apply in_map_iff in Hw as (m & <- & Hm).
    change (Volume_Name (defaultVolume m)) with m in Hname. subst m.
    apply Hin in Hm as [_ Hm]. unfold isVolumeDefined in Hdef. congruence.
Qed.

End Claims.

Lemma C2_witness :
  countNamed api_Volume_Name "data" (App_Volumes (ranDescriptor app_shared_mount))
    = (countNamed api_Volume_Name "data" (App_Volumes app_shared_mount)
       + countNamed (fun m => m) "data" (mountNames app_shared_mount))%nat /\
  countNamed PVC_Name "data" (claimsOf (ranObjects app_shared_mount))
    = countNamed (fun m => m) "data" (mountNames app_shared_mount) /\
  exists news : list string,
    App_PersistentVolumes (ranDescriptor app_shared_mount)
      = App_PersistentVolumes app_shared_mount ++ map defaultVolume news /\
    List.NoDup news /\
    (In "data" news <->
     In "data" (mountNames app_shared_mount) /\
     isVolumeDefined app_shared_mount "data" = false).
Proof.
  apply (C2_one_volume_and_claim_per_mount Sample.ParseQuantity app_shared_mount
           (ranDescriptor app_shared_mount) (ranObjects app_shared_mount) "data").
  vm_compute. reflexivity.
Defined.

(** C2 as stated fails when two containers mount the same name: the pod
    volume list then holds two entries of that name (and the result two
    claims of that name). *)
Lemma C2_counterexample :
  ~ oneVolumeAndClaimPerMountName Sample.ParseQuantity app_shared_mount.
Proof.
  intros H.
  destruct (H (ranDescriptor app_shared_mount) (ranObjects app_shared_mount)
              (mount "data")) as [Hone _].
  - vm_compute. reflexivity.
  - vm_compute. auto.
  - vm_compute in Hone. discriminate Hone.
Qed.

Example shared_mount_counts :
  countNamed api_Volume_Name "data" (App_Volumes (ranDescriptor app_shared_mount)) = 2%nat /\
  countNamed PVC_Name "data" (claimsOf (ranObjects app_shared_mount)) = 2%nat /\
  countNamed Volume_Name "data" (App_PersistentVolumes (ranDescriptor app_shared_mount)) = 1%nat.
Proof. vm_compute. auto. Qed.

Lemma C3_witness :
  exists size extras pvc,
    Sample.ParseQuantity "100Mi" = Ok size /\
    App_PersistentVolumes (ranDescriptor app_data)
      = App_PersistentVolumes app_data ++ extras /\
    In {| Volume_Volume := podVolume (VolumeMount_Name (mount "data"));
          Volume_Size := "100Mi" |} extras /\
    In (ObjPersistentVolumeClaim pvc) (ranObjects app_data) /\
    PVC_Name pvc = VolumeMount_Name (mount "data") /\
    PVC_Requests pvc = {[ ResourceStorage := size ]} /\
    PVC_AccessModes pvc = [ReadWriteOnce].
Proof.
  apply (C3_undeclared_mount_gets_default_claim Sample.ParseQuantity app_data
           (ranDescriptor app_data) (ranObjects app_data) (mount "data")).
  - vm_compute. auto.
  - reflexivity.
  - vm_compute. reflexivity.
Defined.

(** Scenario C of the specification, evaluated: one claim, named [data],
    requesting 100Mi (104857600 bytes), ReadWriteOnce. *)
Example scenario_C_default_claim :
  map (fun pvc => (PVC_Name pvc, PVC_Requests pvc !! ResourceStorage, PVC_AccessModes pvc))
      (claimsOf (ranObjects app_data))
  = [("data", Some (100 * 2 ^ 20), [ReadWriteOnce])].
Proof. vm_compute. reflexivity. Qed.

Lemma C4_witness :
  exists v size,
    index (App_PersistentVolumes app_data_declared)
          (searchVolumeIndex app_data_declared (VolumeMount_Name (mount "data"))) = Some v /\
    Volume_Name v = VolumeMount_Name (mount "data") /\
    Sample.ParseQuantity (Volume_Size v) = Ok size /\
    (exists pvc, In (ObjPersistentVolumeClaim pvc) (ranObjects app_data_declared) /\
                 PVC_Name pvc = VolumeMount_Name (mount "data") /\
                 PVC_Requests pvc = {[ ResourceStorage := size ]} /\
                 PVC_AccessModes pvc = [ReadWriteOnce]) /\
    (forall pvc, In (ObjPersistentVolumeClaim pvc) (ranObjects app_data_declared) ->
                 PVC_Name pvc = VolumeMount_Name (mount "data") ->
                 PVC_Requests pvc = {[ ResourceStorage := size ]}) /\
    exists extras,
      App_PersistentVolumes (ranDescriptor app_data_declared)
        = App_PersistentVolumes app_data_declared ++ extras /\
      forall w, In w extras -> Volume_Name w <> VolumeMount_Name (mount "data").
Proof.
  apply (C4_declared_mount_uses_declared_size Sample.ParseQuantity app_data_declared
           (ranDescriptor app_data_declared) (ranObjects app_data_declared) (mount "data")).
  - vm_compute. auto.
  - reflexivity.
  - vm_compute. reflexivity.
Defined.

(** Scenario D of the specification, evaluated: one claim requesting 10Gi,
    and the declared volumes as they were. *)
Example scenario_D_declared_claim :
  map (fun pvc => (PVC_Name pvc, PVC_Requests pvc !! ResourceStorage))
      (claimsOf (ranObjects app_data_declared))
  = [("data", Some (10 * 2 ^ 30))] /\
  App_PersistentVolumes (ranDescriptor app_data_declared) = [declared "data" "10Gi"].
Proof. vm_compute. auto. Qed.

(** ** Reconciliation of declared volumes, failures, unused declarations *)

Lemma declare_all_defined (ns : list string) (vs : list Volume) :
  (forall n, In n ns -> isVolumeDefined_in vs n = true) ->
  fold_left declare ns vs = vs.
Proof.
  induction ns as [|m ns IH]; intros H; simpl; [reflexivity|].
  unfold declare at 2. rewrite (H m) by (simpl; auto).
  apply IH. intros n Hn. apply H. simpl. auto.
Qed.

Section Reconciliation.

Context {Quantity : Type}.
Variable ParseQuantity : string -> result Quantity.

(** C5.  On a descriptor that declares every mounted volume, the volume pass
    leaves the declared volumes as they are, and so does a second pass on
    the descriptor the first one left.  When the first pass runs to the end
    so does the second, with the same claims, and each pass lengthens the
    pod-level volume list by the number of mounts. *)
Theorem C5_declared_volumes_stable_pod_volumes_grow
    (app app1 app2 : App) (pvcs1 pvcs2 : list (Object Quantity)) (f1 f2 : flow) :
  fullyDeclared app ->
  inferVolumes ParseQuantity app = ((app1, pvcs1), f1) ->
  inferVolumes ParseQuantity app1 = ((app2, pvcs2), f2) ->
  App_PersistentVolumes app1 = App_PersistentVolumes app /\
  App_PersistentVolumes app2 = App_PersistentVolumes app /\
  (f1 = Next ->
   f2 = Next /\ pvcs2 = pvcs1 /\
   length (App_Volumes app1) = (length (App_Volumes app) + length (allMounts app))%nat /\
   length (App_Volumes app2) = (length (App_Volumes app1) + length (allMounts app))%nat).
Proof.
  intros Hfull H1 H2. rewrite inferVolumes_range in H1, H2.
  apply range_mountBody_spec in H1
    as (done1 & claims1 & [rest1 Hr1] & Hsame1 & Hvol1 & Hpv1 & Hpvcs1 & Hf1).
  apply range_mountBody_spec in H2
    as (done2 & claims2 & [rest2 Hr2] & _ & Hvol2 & Hpv2 & Hpvcs2 & Hf2).
  assert (Hmounts : allMounts app1 = allMounts app).
  { unfold allMounts. destruct Hsame1 as (_ & _ & _ & _ & <-). reflexivity. }
  rewrite Hmounts in *.
  assert (Hdef : forall n, In n (map VolumeMount_Name (allMounts app)) ->
                           isVolumeDefined_in (App_PersistentVolumes app) n = true).
  { intros n Hn. apply in_map_iff in Hn as (vm & <- & Hvm). now apply Hfull. }
  assert (E1 : App_PersistentVolumes app1 = App_PersistentVolumes app).
  { rewrite Hpv1. apply declare_all_defined. intros n Hn. apply Hdef.
    rewrite Hr1. apply in_app_iff. auto. }
  assert (E2 : App_PersistentVolumes app2 = App_PersistentVolumes app).
  { rewrite Hpv2, E1. apply declare_all_defined. intros n Hn. apply Hdef.
    rewrite Hr2. apply in_app_iff. auto. }
  split; [exact E1|]. split; [exact E2|].
  intros ->. destruct Hf1 as [-> Hall1]. rewrite E1 in Hf2.
  destruct f2 as [| err |]; [| exfalso | destruct Hf2].
  - destruct Hf2 as [-> Hall2].
    split; [reflexivity|].
    split.
    { rewrite Hpvcs1, Hpvcs2. f_equal. f_equal.
      eapply Forall2_functional; [|exact Hall2|exact Hall1].
      intros n p q Hp Hq. simpl in *. congruence. }
    rewrite Hvol2, Hvol1, !length_app, !length_map. auto.
  - destruct Hf2 as (pre & n & e0 & -> & _ & Hparse & _).
    assert (Hn : In n (map VolumeMount_Name (allMounts app)))
      by (rewrite Hr2, !in_app_iff; simpl; auto).
    destruct (Forall2_In_l _ _ _ _ Hall1 Hn) as (pvc & _ & Hc).
    apply createPVC_Ok in Hc as (size & Hsize & _). congruence.
Qed.

(** C10.  For a declared volume whose name no container mounts: however
    synthesis ends, the declared volumes are the old ones followed by
    entries of other names, the pod-level volumes are the old ones followed
    by entries of other names, and a successful result holds no claim of
    that name. *)
Theorem C10_unmounted_declaration_untouched (app app' : App)
    (r : outcome (result (list (Object Quantity)))) (pv : Volume) :
  In pv (App_PersistentVolumes app) ->
  ~ In (Volume_Name pv) (mountNames app) ->
  CreateK8sObjects ParseQuantity app = (app', r) ->
  (exists extras,
     App_PersistentVolumes app' = App_PersistentVolumes app ++ extras /\
     forall w, In w extras -> Volume_Name w <> Volume_Name pv) /\
  (exists added,
     App_Volumes app' = App_Volumes app ++ added /\
     forall w, In w added -> api_Volume_Name w <> Volume_Name pv) /\
  (forall objs pvc,
     r = Returns (Ok objs) ->
     In (ObjPersistentVolumeClaim pvc) objs -> PVC_Name pvc <> Volume_Name pv).
Proof.
  intros _ Hnot H. split; [|split].
  - apply CreateK8sObjects_descriptor in H
      as (done & rest & Hdone & _ & _ & _ & _ & Hpv).
    destruct (declare_all_shape done (App_PersistentVolumes app)) as (news & Heq & _ & Hin).
    exists (map defaultVolume news). split; [now rewrite Hpv|].
    intros w Hw Hname. apply in_map_iff in Hw as (m & <- & Hm).
    change (Volume_Name (defaultVolume m)) with m in Hname. subst m.
    apply Hin in Hm as [Hm _]. apply Hnot. rewrite Hdone. apply in_app_iff. auto.
  - apply CreateK8sObjects_descriptor in H
      as (done & rest & Hdone & _ & _ & _ & Hvol & _).
    exists (map podVolume done). split; [exact Hvol|].
    intros w Hw Hname. apply in_map_iff in Hw as (m & <- & Hm).
    change (api_Volume_Name (podVolume m)) with m in Hname. subst m.
    apply Hnot. rewrite Hdone. apply in_app_iff. auto.
  - intros objs pvc -> Hin Hname.
    apply CreateK8sObjects_Ok in H as (claims & -> & _ & _ & _ & _ & Hall).
    apply In_claim_objects in Hin. apply Hnot.
    rewrite <- (claims_names ParseQuantity _ _ _ Hall), <- Hname.
    now apply in_map.
Qed.


End Reconciliation.

Lemma C5_witness :
  App_PersistentVolumes (passDescriptor app_all_declared)
    = App_PersistentVolumes app_all_declared /\
  App_PersistentVolumes (passDescriptor (passDescriptor app_all_declared))
    = App_PersistentVolumes app_all_declared /\
  (Next = Next ->
   Next = Next /\
   passClaims (passDescriptor app_all_declared) = passClaims app_all_declared /\
   length (App_Volumes (passDescriptor app_all_declared))
     = (length (App_Volumes app_all_declared) + length (allMounts app_all_declared))%nat /\
   length (App_Volumes (passDescriptor (passDescriptor app_all_declared)))
     = (length (App_Volumes (passDescriptor app_all_declared))
        + length (allMounts app_all_declared))%nat).
Proof.
  apply (C5_declared_volumes_stable_pod_volumes_grow Sample.ParseQuantity
           app_all_declared).
  - intros vm [<-|[<-|[<-|[]]]]; reflexivity.
  - vm_compute. reflexivity.
  - vm_compute. reflexivity.
Defined.

(** Two passes over [app_all_declared], evaluated: three mounts, so the pod
    volume list has three entries after one pass and six after two, while
    the declared volumes stay the two given ones. *)
Example two_passes_all_declared :
  length (App_Volumes (passDescriptor app_all_declared)) = 3%nat /\
  length (App_Volumes (passDescriptor (passDescriptor app_all_declared))) = 6%nat /\
  App_PersistentVolumes (passDescriptor (passDescriptor app_all_declared))
    = [declared "data" "10Gi"; declared "logs" "1Gi"].
Proof. vm_compute. auto. Qed.

Lemma C10_witness :
  (exists extras,
     App_PersistentVolumes (ranDescriptor app_unused_volume)
       = App_PersistentVolumes app_unused_volume ++ extras /\
     forall w, In w extras -> Volume_Name w <> Volume_Name (declared "spare" "10Gi")) /\
  (exists added,
     App_Volumes (ranDescriptor app_unused_volume)
       = App_Volumes app_unused_volume ++ added /\
     forall w, In w added -> api_Volume_Name w <> Volume_Name (declared "spare" "10Gi")) /\
  (forall objs pvc,
     Returns (Ok (ranObjects app_unused_volume)) = Returns (Ok objs) ->
     In (ObjPersistentVolumeClaim pvc) objs ->
     PVC_Name pvc <> Volume_Name (declared "spare" "10Gi")).
Proof.
  apply (C10_unmounted_declaration_untouched Sample.ParseQuantity app_unused_volume).
  - vm_compute. auto.
  - vm_compute. intros [H|[]]. discriminate H.
  - vm_compute. reflexivity.
Defined.



(** ** The pipeline and a failed synthesis *)

Section PipelineFacts.

Context {Quantity GroupVersionKind Stdout : Type}.
Variable ParseQuantity : string -> result Quantity.
Variable ioutil_ReadFile : string -> result string.
Variable yaml_Unmarshal : string -> result App.
Variable Scheme_ObjectKind : Object Quantity -> result (GroupVersionKind * bool).
Variable yaml_Marshal : GroupVersionKind -> Object Quantity -> result string.
Variable typeName : Object Quantity -> string.
Variable Fprintln : Stdout -> string -> Stdout * option error.
Variable Stdout_Write : Stdout -> string -> Stdout * option error.

(** [Convert] does not look at the error of [CreateK8sObjects]: for a file
    whose descriptor fails synthesis it writes nothing and returns nil. *)
Lemma Convert_ignores_synthesis_error (file data : string) (app : App) (err : error)
    (out : Stdout) :
  ioutil_ReadFile file = Ok data ->
  yaml_Unmarshal data = Ok app ->
  snd (CreateK8sObjects ParseQuantity app) = Returns (Err err) ->
  Convert ParseQuantity ioutil_ReadFile yaml_Unmarshal Scheme_ObjectKind yaml_Marshal
    typeName Fprintln Stdout_Write [file] out
  = (out, Returns None).
Proof.
  intros Hread Hdecode Hsynth.
  unfold Convert, fileBody, ReadFile. cbn [range].
  rewrite Hread, Hdecode, Hsynth. reflexivity.
Qed.

End PipelineFacts.

(** The descriptor [app_bad_size] fails synthesis, and a pipeline that reads
    it from any file reports success with nothing written. *)
Example Convert_app_bad_size :
  (exists err, snd (CreateK8sObjects Sample.ParseQuantity app_bad_size) = Returns (Err err)) /\
  Convert Sample.ParseQuantity
    (fun _ => Ok "") (fun _ => Ok app_bad_size)
    (fun _ : Object Z => Ok (tt, false)) (fun _ _ => Ok "")
    (fun _ => "") (fun out s => (out ++ [s], None)) (fun out s => (out ++ [s], None))
    ["db.yaml"] []
  = ([], Returns None).
Proof. split; [eexists|]; vm_compute; reflexivity. Qed.

(** * Further properties of the code *)

(** ** Looking up a declared volume *)

Lemma searchVolumeIndex_from_first (vs : list Volume) (name : string) (i : Z) :
  match firstNamed name vs with
  | Some v => exists k : nat,
      searchVolumeIndex_from vs name i = i + Z.of_nat k /\
      vs !! k = Some v /\
      forall (j : nat) w, (j < k)%nat -> vs !! j = Some w -> Volume_Name w <> name
  | None => searchVolumeIndex_from vs name i = -1
  end.
Proof.
  revert i. induction vs as [|v vs IH]; intros i; simpl; [reflexivity|].
  destruct (String.eqb_spec name (Volume_Name v)) as [Heq|Hne].
  - exists 0%nat. split; [lia|]. split; [reflexivity|]. intros j w Hj. lia.
  - specialize (IH (i + 1)). destruct (firstNamed name vs) as [w|]; [|exact IH].
    destruct IH as (k & Hk & Hw & Hfirst). exists (S k).
    split; [lia|]. split; [exact Hw|].
    intros [|j] u Hj Hu; simpl in Hu.
    + injection Hu as <-. congruence.
    + apply (Hfirst j u); [lia | exact Hu].
Qed.

(** X1.  [isVolumeDefined] and [searchVolumeIndex] agree: the index is -1
    exactly when the name is not declared, and when it is declared the index
    is in range and designates the first declaration of that name. *)
Theorem X1_searchVolumeIndex_finds_first_declaration (app : App) (name : string) :
  (isVolumeDefined app name = false <-> searchVolumeIndex app name = -1) /\
  (isVolumeDefined app name = true ->
   let i := searchVolumeIndex app name in
   0 <= i < Z.of_nat (length (App_PersistentVolumes app)) /\
   exists v,
     App_PersistentVolumes app !! Z.to_nat i = Some v /\
     Volume_Name v = name /\
     forall (j : nat) w,
       (j < Z.to_nat i)%nat -> App_PersistentVolumes app !! j = Some w ->
       Volume_Name w <> name).
Proof.
  unfold isVolumeDefined, searchVolumeIndex.
  rewrite isVolumeDefined_in_firstNamed.
  pose proof (searchVolumeIndex_from_first (App_PersistentVolumes app) name 0) as H.
  destruct (firstNamed name (App_PersistentVolumes app)) as [v|] eqn:Hv.
  - destruct H as (k & Hk & Hlook & Hfirst). split.
    + split; [discriminate | lia].
    + intros _. cbn zeta. rewrite Hk.
      replace (Z.to_nat (0 + Z.of_nat k)) with k by lia.
      apply lookup_lt_Some in Hlook as Hlt. split; [lia|].
      exists v. split; [exact Hlook|]. split; [|exact Hfirst].
      now apply firstNamed_name in Hv.
  - split; [tauto | discriminate].
Qed.

(** ** How a synthesis ends *)

Section Outcomes.

Context {Quantity : Type}.
Variable ParseQuantity : string -> result Quantity.

Lemma CreateK8sObjects_complete (app : App) :
  sizesParse ParseQuantity app ->
  exists app' objs, CreateK8sObjects ParseQuantity app = (app', Returns (Ok objs)).
Proof.
  intros Hall. destruct (CreateK8sObjects ParseQuantity app) as [app' r] eqn:H.
  destruct r as [[objs|e]|].
  - eauto.
  - apply CreateK8sObjects_Err in H as (n & e0 & Hn & Hparse & _).
    unfold sizesParse in Hall. rewrite List.Forall_forall in Hall.
    destruct (Hall n Hn) as (size & Hsize). congruence.
  - pose proof (CreateK8sObjects_no_panic ParseQuantity app) as Hp.
    rewrite H in Hp. now destruct Hp.
Qed.


(** X3.  Synthesis succeeds exactly when the size every volume mount
    resolves to parses (the size of the first declaration of its name, or
    "100Mi"); sizes of declarations that no mount resolves to play no part. *)
Theorem X3_succeeds_iff_mounted_sizes_parse (app : App) :
  (exists app' objs, CreateK8sObjects ParseQuantity app = (app', Returns (Ok objs)))
  <-> sizesParse ParseQuantity app.
Proof.
  split.
  - intros (app' & objs & H).
    apply CreateK8sObjects_Ok in H as (claims & _ & _ & _ & _ & _ & Hall).
    unfold sizesParse. apply List.Forall_forall. intros n Hn.
    destruct (Forall2_In_l _ _ _ _ Hall Hn) as (pvc & _ & Hc).
    apply createPVC_Ok in Hc as (size & Hsize & _). eauto.
  - apply CreateK8sObjects_complete.
Qed.

(** X4.  A failed synthesis stops at the first volume mount, in
    container-then-mount order, whose size does not parse, and reports that
    parser error.  The descriptor is not rolled back: it keeps the defaulted
    labels, one appended pod volume for every mount up to and including the
    failing one, and those mounts declared; its containers are as given. *)
Theorem X4_failure_at_first_unparseable_mount (app app' : App) (err : error) :
  CreateK8sObjects ParseQuantity app = (app', Returns (Err err)) ->
  exists pre n rest e0,
    mountNames app = pre ++ n :: rest /\
    Forall (fun m => exists size,
              ParseQuantity (Volume_Size (resolve (App_PersistentVolumes app) m)) = Ok size)
           pre /\
    ParseQuantity (Volume_Size (resolve (App_PersistentVolumes app) n)) = Err e0 /\
    err = Wrap (Wrap e0 "could not read volume size") "cannot create pvc" /\
    App_Labels app' = App_Labels (defaultLabels app) /\
    App_Volumes app' = App_Volumes app ++ map podVolume (pre ++ [n]) /\
    App_PersistentVolumes app' = fold_left declare (pre ++ [n]) (App_PersistentVolumes app) /\
    App_Containers app' = App_Containers app.
Proof.
  intros H. apply CreateK8sObjects_unfold in H as (app1 & pvcs & f & Hpass & Hf).
  rewrite inferVolumes_range in Hpass.
  apply range_mountBody_spec in Hpass
    as (done & claims & [rest Hrest] & Hsame & Hvol & Hpv & _ & Hdone).
  rewrite defaultLabels_mounts, defaultLabels_PersistentVolumes, defaultLabels_Volumes in *.
  destruct f as [| e |]; [destruct Hf as [_ [=]] | | destruct Hf].
  destruct Hf as [-> [= ->]]. destruct Hdone as (pre & n & e0 & -> & Hall & Hparse & ->).
  exists pre, n, rest, e0.
  split; [unfold mountNames; rewrite Hrest, <- app_assoc; reflexivity|].
  split.
  { apply List.Forall_forall. intros m Hm.
    destruct (Forall2_In_l _ _ _ _ Hall Hm) as (pvc & _ & Hc).
    apply createPVC_Ok in Hc as (size & Hsize & _). eauto. }
  destruct Hsame as (_ & _ & _ & Hl & Hc).
  repeat split; auto.
  rewrite <- Hc. unfold App_Containers.
  now destruct (defaultLabels_fields app) as (_ & _ & _ & _ & ->).
Qed.

End Outcomes.

Lemma X3_witness :
  (exists app' objs,
     CreateK8sObjects Sample.ParseQuantity app_bad_size = (app', Returns (Ok objs)))
  <-> sizesParse Sample.ParseQuantity app_bad_size.
Proof. exact (X3_succeeds_iff_mounted_sizes_parse Sample.ParseQuantity app_bad_size). Defined.

Lemma X4_witness :
  exists pre n rest e0,
    mountNames app_bad_second = pre ++ n :: rest /\
    Forall (fun m => exists size,
              Sample.ParseQuantity
                (Volume_Size (resolve (App_PersistentVolumes app_bad_second) m)) = Ok size)
           pre /\
    Sample.ParseQuantity
      (Volume_Size (resolve (App_PersistentVolumes app_bad_second) n)) = Err e0 /\
    "cannot create pvc: could not read volume size: quantity does not start with a digit"
      = Wrap (Wrap e0 "could not read volume size") "cannot create pvc" /\
    App_Labels (ranDescriptor app_bad_second) = App_Labels (defaultLabels app_bad_second) /\
    App_Volumes (ranDescriptor app_bad_second)
      = App_Volumes app_bad_second ++ map podVolume (pre ++ [n]) /\
    App_PersistentVolumes (ranDescriptor app_bad_second)
      = fold_left declare (pre ++ [n]) (App_PersistentVolumes app_bad_second) /\
    App_Containers (ranDescriptor app_bad_second) = App_Containers app_bad_second.
Proof.
  apply (X4_failure_at_first_unparseable_mount Sample.ParseQuantity app_bad_second).
  vm_compute. reflexivity.
Defined.

(** The failing run of [app_bad_second], evaluated: the mount [data] was
    processed and [logs] failed, so two pod volumes were appended and [data]
    was declared, although the call returned an error. *)
Example bad_second_leaves_partial_descriptor :
  snd (CreateK8sObjects Sample.ParseQuantity app_bad_second)
    = Returns (Err "cannot create pvc: could not read volume size: quantity does not start with a digit") /\
  map api_Volume_Name (App_Volumes (ranDescriptor app_bad_second)) = ["data"; "logs"] /\
  map Volume_Name (App_PersistentVolumes (ranDescriptor app_bad_second)) = ["logs"; "data"].
Proof. vm_compute. auto. Qed.

(** ** The deployment and the container name default *)

Lemma defaultContainerName_containers (app app' : App) :
  defaultContainerName app = Some app' ->
  App_Containers app' = namedContainers (App_Name app) (App_Containers app).
Proof.
  unfold defaultContainerName, namedContainers.
  destruct (App_Containers app) as [|c [|c2 cs]] eqn:Hcs; simpl.
  - intros [= <-]. exact Hcs.
  - destruct (String.eqb (Container_Name c) ""); intros [= <-]; [reflexivity | exact Hcs].
  - intros [= <-]. exact Hcs.
Qed.

Lemma namedContainers_mounts (name : string) (cs : list Container) :
  flat_map Container_VolumeMounts (namedContainers name cs)
  = flat_map Container_VolumeMounts cs.
Proof.
  unfold namedContainers. destruct cs as [|c [|c2 cs]]; try reflexivity.
  destruct (String.eqb (Container_Name c) ""); reflexivity.
Qed.

Lemma namedContainers_ports (name : string) (cs : list Container) :
  flat_map Container_Ports (namedContainers name cs) = flat_map Container_Ports cs.
Proof.
  unfold namedContainers. destruct cs as [|c [|c2 cs]]; try reflexivity.
  destruct (String.eqb (Container_Name c) ""); reflexivity.
Qed.

Lemma namedContainers_twice (name : string) (cs : list Container) :
  namedContainers name (namedContainers name cs) = namedContainers name cs.
Proof.
  unfold namedContainers. destruct cs as [|c [|c2 cs]]; try reflexivity.
  destruct (String.eqb (Container_Name c) "") eqn:Hc.
  - simpl. destruct (String.eqb name ""); reflexivity.
  - rewrite Hc. reflexivity.
Qed.

Lemma flat_map_ports_nil (cs : list Container) :
  flat_map Container_Ports cs = [] <-> Forall (fun c => Container_Ports c = []) cs.
Proof.
  induction cs as [|c cs IH]; simpl.
  - split; [constructor | reflexivity].
  - split.
    + intros Hc. apply app_eq_nil in Hc as [Hc1 Hc2]. constructor; [exact Hc1 | now apply IH].
    + intros Hc. inversion Hc as [|? ? Hc1 Hc2]; subst. rewrite Hc1. now apply IH.
Qed.

Lemma flat_map_ports_length (cs : list Container) :
  length (flat_map Container_Ports cs)
  = list_sum (map (fun c => length (Container_Ports c)) cs).
Proof.
  induction cs as [|c cs IH]; simpl; [reflexivity|].
  now rewrite length_app, IH.
Qed.

Section Workload.

Context {Quantity : Type}.
Variable ParseQuantity : string -> result Quantity.

(** The descriptor a successful call leaves, field by field. *)
Lemma CreateK8sObjects_Ok_descriptor (app app' : App) (objs : list (Object Quantity)) :
  CreateK8sObjects ParseQuantity app = (app', Returns (Ok objs)) ->
  App_Name app' = App_Name app /\
  App_Replicas app' = App_Replicas app /\
  App_Expose app' = App_Expose app /\
  App_Labels app' = App_Labels (defaultLabels app) /\
  App_Containers app' = namedContainers (App_Name app) (App_Containers app) /\
  App_Volumes app' = App_Volumes app ++ map podVolume (mountNames app) /\
  App_PersistentVolumes app' =
    fold_left declare (mountNames app) (App_PersistentVolumes app).
Proof.
  intros H. pose proof H as H0.
  apply CreateK8sObjects_Ok in H0 as (claims & _ & Hn & Hl & Hv & Hp & _).
  apply CreateK8sObjects_unfold in H as (app1 & pvcs & f & Hpass & Hf).
  rewrite inferVolumes_range in Hpass.
  apply range_mountBody_spec in Hpass as (done & cl & _ & Hsame & _ & _ & _ & Hdone).
  destruct f as [| err |]; [| destruct Hf as [_ [=]] | destruct Hf].
  destruct Hf as [Hname _].
  destruct (defaultContainerName_spec app1) as (app2 & Happ2 & _ & Hr & He & _).
  rewrite Hname in Happ2. injection Happ2 as <-.
  apply defaultContainerName_containers in Hname.
  destruct Hsame as (Hsn & Hsr & Hse & _ & Hsc).
  destruct (defaultLabels_fields app) as (Dn & Dr & De & _ & Dp).
  repeat split; auto.
  - congruence.
  - congruence.
  - rewrite Hname, <- Hsn, <- Hsc, Dn. unfold App_Containers. now rewrite Dp.
Qed.

(** X5.  The single-container convenience: after a successful synthesis a
    descriptor with exactly one container whose name is empty has that
    container named after the application; in every other case (no
    container, a named single container, several containers even if
    unnamed) the containers are as given.  Only the name is touched, and the
    deployment's pod template holds exactly these containers. *)
Theorem X5_single_unnamed_container_takes_app_name (app app' : App)
    (objs : list (Object Quantity)) :
  CreateK8sObjects ParseQuantity app = (app', Returns (Ok objs)) ->
  App_Containers app' =
    match App_Containers app with
    | [c] => if String.eqb (Container_Name c) ""
             then [{| Container_Name := App_Name app;
                      Container_Image := Container_Image c;
                      Container_Ports := Container_Ports c;
                      Container_VolumeMounts := Container_VolumeMounts c |}]
             else [c]
    | cs => cs
    end /\
  exists d rest,
    objs = ObjDeployment d :: rest /\
    PodSpec_Containers (PodTemplateSpec_Spec (DeploymentSpec_Template (Deployment_Spec d)))
      = App_Containers app'.
Proof.
  intros H. pose proof H as H0.
  apply CreateK8sObjects_Ok_descriptor in H0 as (_ & _ & _ & _ & Hc & _).
  apply CreateK8sObjects_Ok in H as (claims & -> & _).
  split.
  - rewrite Hc. unfold namedContainers.
    destruct (App_Containers app) as [|c [|c2 cs]]; reflexivity.
  - eexists _, _. split; reflexivity.
Qed.

(** X6.  The deployment of a successful synthesis: it and its pod template
    are named after the application, the replica count is passed through as
    given (nil stays nil), and the template's volumes are the pod volumes the
    descriptor came with followed by one volume per mount, in mount order,
    each named after its mount and referring to the claim of that name. *)
Theorem X6_deployment_shape (app app' : App) (objs : list (Object Quantity)) :
  CreateK8sObjects ParseQuantity app = (app', Returns (Ok objs)) ->
  exists d rest,
    objs = ObjDeployment d :: rest /\
    ObjectMeta_Name (Deployment_ObjectMeta d) = App_Name app /\
    DeploymentSpec_Replicas (Deployment_Spec d) = App_Replicas app /\
    ObjectMeta_Name
      (PodTemplateSpec_ObjectMeta (DeploymentSpec_Template (Deployment_Spec d)))
      = App_Name app /\
    PodSpec_Volumes (PodTemplateSpec_Spec (DeploymentSpec_Template (Deployment_Spec d)))
      = App_Volumes app ++
        map (fun vm =>
               {| api_Volume_Name := VolumeMount_Name vm;
                  api_Volume_VolumeSource :=
                    {| VolumeSource_HostPath := None;
                       VolumeSource_PersistentVolumeClaim :=
                         Some {| ClaimName := VolumeMount_Name vm;
                                 ClaimReadOnly := false |} |} |})
            (allMounts app).
Proof.
  intros H. pose proof H as H0.
  apply CreateK8sObjects_Ok_descriptor in H0 as (Hn & Hr & _ & _ & _ & Hv & _).
  apply CreateK8sObjects_Ok in H as (claims & -> & _).
  eexists _, _. split; [reflexivity|]. simpl.
  split; [exact Hn|]. split; [exact Hr|]. split; [exact Hn|].
  change (PodSpec_Volumes (App_PodSpec app')) with (App_Volumes app').
  rewrite Hv. unfold mountNames. rewrite map_map. reflexivity.
Qed.

(** X7.  Whatever labels the descriptor has after defaulting (the given ones
    when set, {app: name} when unset), a successful synthesis puts the same
    label map on the deployment and on its pod template, and when a service
    is built, on the service and as its selector: the selector always equals
    the pod template's labels. *)
Theorem X7_selector_equals_template_labels (app app' : App)
    (objs : list (Object Quantity)) :
  CreateK8sObjects ParseQuantity app = (app', Returns (Ok objs)) ->
  let labels := match App_Labels app with
                | None => Some {[ "app" := App_Name app ]}
                | Some given => Some given
                end in
  App_Labels app' = labels /\
  exists d svc rest,
    objs = ObjDeployment d :: ObjService svc :: rest /\
    ObjectMeta_Labels (Deployment_ObjectMeta d) = labels /\
    ObjectMeta_Labels
      (PodTemplateSpec_ObjectMeta (DeploymentSpec_Template (Deployment_Spec d))) = labels /\
    forall s, svc = Some s ->
      ObjectMeta_Labels (Service_ObjectMeta s) = labels /\
      ServiceSpec_Selector (Service_Spec s)
      = ObjectMeta_Labels
          (PodTemplateSpec_ObjectMeta (DeploymentSpec_Template (Deployment_Spec d))).
Proof.
  intros H labels.
  assert (Hd : App_Labels (defaultLabels app) = labels).
  { subst labels. unfold defaultLabels. destruct (App_Labels app) eqn:E; simpl; auto. }
  apply CreateK8sObjects_Ok in H as (claims & -> & _ & Hl & _).
  rewrite Hd in Hl. split; [exact Hl|].
  eexists _, _, _. split; [reflexivity|]. simpl.
  split; [exact Hl|]. split; [exact Hl|].
  intros s. rewrite buildService_spec.
  destruct (allPorts (defaultLabels app)); [discriminate|].
  intros [= <-]. simpl. rewrite Hd, Hl. auto.
Qed.

(** X8.  In a successful result the service pointer is nil exactly when
    every container has an empty port list; when it is not nil the service
    is named after the application and has as many ports as the containers
    declare in total. *)
Theorem X8_service_present_iff_some_port (app app' : App)
    (objs : list (Object Quantity)) :
  CreateK8sObjects ParseQuantity app = (app', Returns (Ok objs)) ->
  exists d svc rest,
    objs = ObjDeployment d :: ObjService svc :: rest /\
    (svc = None <-> Forall (fun c => Container_Ports c = []) (App_Containers app)) /\
    forall s, svc = Some s ->
      ObjectMeta_Name (Service_ObjectMeta s) = App_Name app /\
      length (ServiceSpec_Ports (Service_Spec s))
      = list_sum (map (fun c => length (Container_Ports c)) (App_Containers app)).
Proof.
  intros H. apply CreateK8sObjects_Ok in H as (claims & -> & _).
  eexists _, _, _. split; [reflexivity|].
  rewrite buildService_spec, defaultLabels_allPorts, allPorts_flat_map.
  pose proof (flat_map_ports_nil (App_Containers app)) as Hnil.
  pose proof (flat_map_ports_length (App_Containers app)) as Hlen.
  destruct (flat_map Container_Ports (App_Containers app)) as [|p ports] eqn:Hp.
  - split; [split; [intros _; now apply Hnil | reflexivity]|]. discriminate.
  - split.
    + split; [discriminate|]. intros Hall. apply Hnil in Hall. discriminate.
    + intros s [= <-]. cbn [Service_ObjectMeta ObjectMeta_Name ServiceSpec_Ports Service_Spec].
      split; [apply defaultLabels_fields|].
      rewrite <- Hlen. simpl. now rewrite length_map.
Qed.

End Workload.

Lemma X5_witness :
  App_Containers (ranDescriptor app_web) =
    match App_Containers app_web with
    | [c] => if String.eqb (Container_Name c) ""
             then [{| Container_Name := App_Name app_web;
                      Container_Image := Container_Image c;
                      Container_Ports := Container_Ports c;
                      Container_VolumeMounts := Container_VolumeMounts c |}]
             else [c]
    | cs => cs
    end /\
  exists d rest,
    ranObjects app_web = ObjDeployment d :: rest /\
    PodSpec_Containers (PodTemplateSpec_Spec (DeploymentSpec_Template (Deployment_Spec d)))
      = App_Containers (ranDescriptor app_web).
Proof.
  apply (X5_single_unnamed_container_takes_app_name Sample.ParseQuantity app_web).
  vm_compute. reflexivity.
Defined.

(** Two unnamed containers stay unnamed; a single unnamed one is named. *)
Example container_names_after_synthesis :
  map Container_Name (App_Containers (ranDescriptor app_two_unnamed)) = [""; ""] /\
  map Container_Name (App_Containers (ranDescriptor app_web)) = ["web"].
Proof. vm_compute. auto. Qed.

Lemma X6_witness :
  exists d rest,
    ranObjects app_data = ObjDeployment d :: rest /\
    ObjectMeta_Name (Deployment_ObjectMeta d) = App_Name app_data /\
    DeploymentSpec_Replicas (Deployment_Spec d) = App_Replicas app_data /\
    ObjectMeta_Name
      (PodTemplateSpec_ObjectMeta (DeploymentSpec_Template (Deployment_Spec d)))
      = App_Name app_data /\
    PodSpec_Volumes (PodTemplateSpec_Spec (DeploymentSpec_Template (Deployment_Spec d)))
      = App_Volumes app_data ++
        map (fun vm =>
               {| api_Volume_Name := VolumeMount_Name vm;
                  api_Volume_VolumeSource :=
                    {| VolumeSource_HostPath := None;
                       VolumeSource_PersistentVolumeClaim :=
                         Some {| ClaimName := VolumeMount_Name vm;
                                 ClaimReadOnly := false |} |} |})
            (allMounts app_data).
Proof.
  apply (X6_deployment_shape Sample.ParseQuantity app_data (ranDescriptor app_data)).
  vm_compute. reflexivity.
Defined.

Lemma X7_witness :
  App_Labels (ranDescriptor app_labelled) = Some {[ "tier" := "front" ]} /\
  exists d svc rest,
    ranObjects app_labelled = ObjDeployment d :: ObjService svc :: rest /\
    ObjectMeta_Labels (Deployment_ObjectMeta d) = Some {[ "tier" := "front" ]} /\
    ObjectMeta_Labels
      (PodTemplateSpec_ObjectMeta (DeploymentSpec_Template (Deployment_Spec d)))
      = Some {[ "tier" := "front" ]} /\
    forall s, svc = Some s ->
      ObjectMeta_Labels (Service_ObjectMeta s) = Some {[ "tier" := "front" ]} /\
      ServiceSpec_Selector (Service_Spec s)
      = ObjectMeta_Labels
          (PodTemplateSpec_ObjectMeta (DeploymentSpec_Template (Deployment_Spec d))).
Proof.
  apply (X7_selector_equals_template_labels Sample.ParseQuantity app_labelled
           (ranDescriptor app_labelled) (ranObjects app_labelled)).
  vm_compute. reflexivity.
Defined.

Lemma X8_witness :
  exists d svc rest,
    ranObjects app_two_unnamed = ObjDeployment d :: ObjService svc :: rest /\
    (svc = None <->
     Forall (fun c => Container_Ports c = []) (App_Containers app_two_unnamed)) /\
    forall s, svc = Some s ->
      ObjectMeta_Name (Service_ObjectMeta s) = App_Name app_two_unnamed /\
      length (ServiceSpec_Ports (Service_Spec s))
      = list_sum (map (fun c => length (Container_Ports c))
                      (App_Containers app_two_unnamed)).
Proof.
  apply (X8_service_present_iff_some_port Sample.ParseQuantity app_two_unnamed
           (ranDescriptor app_two_unnamed)).
  vm_compute. reflexivity.
Defined.

(** ** Mounts, pod volumes and claims are linked; a second synthesis *)

Section Linking.

Context {Quantity : Type}.
Variable ParseQuantity : string -> result Quantity.

(** X9.  After a successful synthesis every volume mount is backed end to
    end: the deployment's pod template has a volume named after the mount
    that refers to the claim of that name, the result holds a claim of that
    name, and the name is declared in the descriptor's persistent volumes
    with the size that claim was built from. *)
Theorem X9_every_mount_is_backed (app app' : App) (objs : list (Object Quantity))
    (vm : VolumeMount) :
  CreateK8sObjects ParseQuantity app = (app', Returns (Ok objs)) ->
  In vm (allMounts app) ->
  exists d svc claims pv pvc v size,
    objs = ObjDeployment d :: ObjService svc :: map ObjPersistentVolumeClaim claims /\
    In pv (PodSpec_Volumes
             (PodTemplateSpec_Spec (DeploymentSpec_Template (Deployment_Spec d)))) /\
    api_Volume_Name pv = VolumeMount_Name vm /\
    VolumeSource_PersistentVolumeClaim (api_Volume_VolumeSource pv)
      = Some {| ClaimName := VolumeMount_Name vm; ClaimReadOnly := false |} /\
    In pvc claims /\
    PVC_Name pvc = VolumeMount_Name vm /\
    isVolumeDefined app' (VolumeMount_Name vm) = true /\
    index (App_PersistentVolumes app') (searchVolumeIndex app' (VolumeMount_Name vm))
      = Some v /\
    ParseQuantity (Volume_Size v) = Ok size /\
    PVC_Requests pvc = {[ ResourceStorage := size ]}.
Proof.
  intros H Hvm. apply In_mountNames in Hvm. set (n := VolumeMount_Name vm) in *.
  apply CreateK8sObjects_Ok in H as (claims & -> & _ & _ & Hvol & Hpv & Hall).
  destruct (Forall2_In_l _ _ _ _ Hall Hvm) as (pvc & Hpvc & Hc).
  apply createPVC_Ok in Hc as (size & Hsize & Hpvc_eq).
  pose proof (firstNamed_declare_all (mountNames app) (App_PersistentVolumes app) n Hvm)
    as Hfirst.
  rewrite <- Hpv in Hfirst.
  exists (createDeployment app'), (buildService (defaultLabels app)), claims,
    (podVolume n), pvc, (resolve (App_PersistentVolumes app) n), size.
  split; [reflexivity|].
  split.
  { cbn. change (PodSpec_Volumes (App_PodSpec app')) with (App_Volumes app').
    rewrite Hvol. apply in_app_iff. right. now apply in_map. }
  split; [reflexivity|]. split; [reflexivity|]. split; [exact Hpvc|].
  split; [subst pvc; apply resolve_name|].
  split.
  { unfold isVolumeDefined. rewrite isVolumeDefined_in_firstNamed, Hfirst. reflexivity. }
  split; [rewrite index_searchVolumeIndex; exact Hfirst|].
  split; [exact Hsize|]. subst pvc. reflexivity.
Qed.

(** X10.  Synthesis run again on the descriptor a successful synthesis left
    behind succeeds too and returns the same service and the same claims;
    labels, containers and declared volumes are left as the first run left
    them, and the only change is one more pod volume per mount, so the new
    deployment differs from the first one in its duplicated volumes only. *)
Theorem X10_second_synthesis (app app1 : App) (objs1 : list (Object Quantity)) :
  CreateK8sObjects ParseQuantity app = (app1, Returns (Ok objs1)) ->
  exists app2 objs2,
    CreateK8sObjects ParseQuantity app1 = (app2, Returns (Ok objs2)) /\
    tl objs2 = tl objs1 /\
    App_Labels app2 = App_Labels app1 /\
    App_Containers app2 = App_Containers app1 /\
    App_PersistentVolumes app2 = App_PersistentVolumes app1 /\
    App_Volumes app2 = App_Volumes app1 ++ map podVolume (mountNames app).
Proof.
  intros H. pose proof H as H0.
  apply CreateK8sObjects_Ok_descriptor in H0 as (Hn & Hr & He & Hl & Hc & Hv & Hp).
  apply CreateK8sObjects_Ok in H as (claims1 & -> & _ & _ & _ & _ & Hall1).
  assert (Hmounts : mountNames app1 = mountNames app).
  { unfold mountNames, allMounts. rewrite Hc, namedContainers_mounts. reflexivity. }
  assert (Hports : allPorts app1 = allPorts app).
  { rewrite !allPorts_flat_map, Hc, namedContainers_ports. reflexivity. }
  assert (Hres : forall n, resolve (App_PersistentVolumes app1) n
                           = resolve (App_PersistentVolumes app) n).
  { intros n. rewrite Hp. apply resolve_declare_all. }
  assert (Hlab : defaultLabels app1 = app1).
  { assert (Hsome : exists l, App_Labels app1 = Some l).
    { rewrite Hl. unfold defaultLabels. destruct (App_Labels app) eqn:E; simpl; eauto. }
    destruct Hsome as [l Hsome]. unfold defaultLabels. now rewrite Hsome. }
  destruct (CreateK8sObjects_complete ParseQuantity app1) as (app2 & objs2 & H2).
  { unfold sizesParse. rewrite Hmounts. apply List.Forall_forall. intros n Hin.
    destruct (Forall2_In_l _ _ _ _ Hall1 Hin) as (pvc & _ & Hpvc).
    apply createPVC_Ok in Hpvc as (size & Hsize & _). rewrite Hres. eauto. }
  exists app2, objs2. split; [exact H2|].
  pose proof H2 as H3.
  apply CreateK8sObjects_Ok_descriptor in H3 as (Hn2 & _ & _ & Hl2 & Hc2 & Hv2 & Hp2).
  apply CreateK8sObjects_Ok in H2 as (claims2 & -> & _ & _ & _ & _ & Hall2).
  rewrite Hlab in *. rewrite Hmounts in *.
  split.
  { cbn [tl]. f_equal.
    - f_equal. rewrite !buildService_spec, Hports, defaultLabels_allPorts.
      destruct (allPorts app); [reflexivity|].
      destruct (defaultLabels_fields app) as (Dn & _ & De & _).
      rewrite Hn, He, Hl, Dn, De. reflexivity.
    - f_equal. eapply Forall2_functional; [|exact Hall2|].
      + intros n p q Hp1 Hq. simpl in *. congruence.
      + eapply Forall2_impl; [exact Hall1|]. intros n p Hnp. simpl. now rewrite Hres. }
  split; [exact Hl2|].
  split; [rewrite Hc2, Hc, Hn; apply namedContainers_twice|].
  split; [|exact Hv2].
  rewrite Hp2, Hp. apply declare_all_defined. intros n Hn'.
  rewrite isVolumeDefined_in_firstNamed, (firstNamed_declare_all _ _ _ Hn'). reflexivity.
Qed.

End Linking.

Lemma X9_witness :
  exists d svc claims pv pvc v size,
    ranObjects app_shared_mount
      = ObjDeployment d :: ObjService svc :: map ObjPersistentVolumeClaim claims /\
    In pv (PodSpec_Volumes
             (PodTemplateSpec_Spec (DeploymentSpec_Template (Deployment_Spec d)))) /\
    api_Volume_Name pv = VolumeMount_Name (mount "data") /\
    VolumeSource_PersistentVolumeClaim (api_Volume_VolumeSource pv)
      = Some {| ClaimName := VolumeMount_Name (mount "data"); ClaimReadOnly := false |} /\
    In pvc claims /\
    PVC_Name pvc = VolumeMount_Name (mount "data") /\
    isVolumeDefined (ranDescriptor app_shared_mount) (VolumeMount_Name (mount "data")) = true /\
    index (App_PersistentVolumes (ranDescriptor app_shared_mount))
          (searchVolumeIndex (ranDescriptor app_shared_mount)
             (VolumeMount_Name (mount "data"))) = Some v /\
    Sample.ParseQuantity (Volume_Size v) = Ok size /\
    PVC_Requests pvc = {[ ResourceStorage := size ]}.
Proof.
  apply (X9_every_mount_is_backed Sample.ParseQuantity app_shared_mount
           (ranDescriptor app_shared_mount) (ranObjects app_shared_mount) (mount "data")).
  - vm_compute. reflexivity.
  - vm_compute. auto.
Defined.

Lemma X10_witness :
  exists app2 objs2,
    CreateK8sObjects Sample.ParseQuantity (ranDescriptor app_data)
      = (app2, Returns (Ok objs2)) /\
    tl objs2 = tl (ranObjects app_data) /\
    App_Labels app2 = App_Labels (ranDescriptor app_data) /\
    App_Containers app2 = App_Containers (ranDescriptor app_data) /\
    App_PersistentVolumes app2 = App_PersistentVolumes (ranDescriptor app_data) /\
    App_Volumes app2 = App_Volumes (ranDescriptor app_data) ++ map podVolume (mountNames app_data).
Proof.
  apply (X10_second_synthesis Sample.ParseQuantity app_data).
  vm_compute. reflexivity.
Defined.

(** A second run on [app_data], evaluated: the pod template now lists the
    volume [data] twice, while there is still one declared volume. *)
Example second_run_duplicates_pod_volume :
  map api_Volume_Name (App_Volumes (ranDescriptor (ranDescriptor app_data))) = ["data"; "data"] /\
  map Volume_Name (App_PersistentVolumes (ranDescriptor (ranDescriptor app_data))) = ["data"].
Proof. vm_compute. auto. Qed.

(** ** The pipeline *)

Section PipelineOrder.

Context {Quantity GroupVersionKind Stdout : Type}.
Variable ParseQuantity : string -> result Quantity.
Variable ioutil_ReadFile : string -> result string.
Variable yaml_Unmarshal : string -> result App.
Variable Scheme_ObjectKind : Object Quantity -> result (GroupVersionKind * bool).
Variable yaml_Marshal : GroupVersionKind -> Object Quantity -> result string.
Variable typeName : Object Quantity -> string.
Variable Fprintln : Stdout -> string -> Stdout * option error.
Variable Stdout_Write : Stdout -> string -> Stdout * option error.

Local Abbreviation convert :=
  (Convert ParseQuantity ioutil_ReadFile yaml_Unmarshal Scheme_ObjectKind yaml_Marshal
     typeName Fprintln Stdout_Write).

Local Abbreviation perFile :=
  (fileBody Quantity ParseQuantity GroupVersionKind Stdout ioutil_ReadFile yaml_Unmarshal
     Scheme_ObjectKind yaml_Marshal typeName Fprintln Stdout_Write).

Local Abbreviation perObject :=
  (objectBody Quantity GroupVersionKind Stdout Scheme_ObjectKind yaml_Marshal typeName
     Fprintln Stdout_Write).

Lemma Convert_cons (file : string) (rest : list string) (out : Stdout) :
  convert (file :: rest) out =
  match perFile file out with
  | (out1, Next) => convert rest out1
  | (out1, Return err) => (out1, Returns (Some err))
  | (out1, Panic) => (out1, Panics)
  end.
Proof.
  unfold Convert. cbn [range].
  destruct (perFile file out) as [out1 [| err |]]; reflexivity.
Qed.


(** X12.  A file that cannot be read, or whose content does not decode,
    stops the conversion at once: nothing is written for it, the files after
    it are not processed, and the error returned is the reader's error
    wrapped with "file reading failed", or the decoder's wrapped with "could
    not unmarshal into internal struct". *)
Theorem X12_unreadable_file_stops_conversion (file : string) (rest : list string)
    (out : Stdout) :
  (forall e, ioutil_ReadFile file = Err e ->
     Convert ParseQuantity ioutil_ReadFile yaml_Unmarshal Scheme_ObjectKind yaml_Marshal
       typeName Fprintln Stdout_Write (file :: rest) out
     = (out, Returns (Some ("file reading failed: " +:+ e)))) /\
  (forall data e, ioutil_ReadFile file = Ok data -> yaml_Unmarshal data = Err e ->
     Convert ParseQuantity ioutil_ReadFile yaml_Unmarshal Scheme_ObjectKind yaml_Marshal
       typeName Fprintln Stdout_Write (file :: rest) out
     = (out, Returns (Some ("could not unmarshal into internal struct: " +:+ e)))).
Proof.
  split.
  - intros e He. rewrite Convert_cons. unfold fileBody, ReadFile. rewrite He. reflexivity.
  - intros data e Hd He. rewrite Convert_cons. unfold fileBody, ReadFile.
    rewrite Hd, He. reflexivity.
Qed.

(** X13.  A descriptor whose synthesis fails is skipped without a trace:
    the error is dropped, nothing is written for that file, and conversion
    carries on with the remaining files as if the file had not been given. *)
Theorem X13_failed_synthesis_is_skipped (file data : string) (app : App) (err : error)
    (rest : list string) (out : Stdout) :
  ioutil_ReadFile file = Ok data ->
  yaml_Unmarshal data = Ok app ->
  snd (CreateK8sObjects ParseQuantity app) = Returns (Err err) ->
  convert (file :: rest) out = convert rest out.
Proof.
  intros Hread Hdecode Hsynth. rewrite Convert_cons.
  unfold fileBody, ReadFile. rewrite Hread, Hdecode, Hsynth. reflexivity.
Qed.

(** The loop over the objects never falls through a nil service pointer. *)
Lemma objectBody_nil_service (out : Stdout) :
  snd (perObject (ObjService None) out) <> Next.
Proof.
  unfold objectBody.
  destruct (Scheme_ObjectKind (ObjService None)) as [[gvk [|]]|e]; simpl; discriminate.
Qed.

(** X14.  A descriptor without container ports whose volume sizes parse is
    never converted successfully: its object list holds a nil service
    pointer, at which the output loop returns an error (when the scheme
    lookup rejects it or reports it unversioned) or panics (when the kind is
    set through the nil pointer).  Conversion of any file list starting with
    such a descriptor does not return nil. *)
Theorem X14_descriptor_without_ports_never_converts (file data : string) (app : App)
    (rest : list string) (out : Stdout) :
  ioutil_ReadFile file = Ok data ->
  yaml_Unmarshal data = Ok app ->
  allPorts app = [] ->
  sizesParse ParseQuantity app ->
  snd (convert (file :: rest) out) <> Returns None.
Proof.
  intros Hread Hdecode Hports Hsizes.
  destruct (CreateK8sObjects_complete ParseQuantity app Hsizes) as (app' & objs & Hsynth).
  destruct (CreateK8sObjects_without_ports ParseQuantity app app' objs Hports Hsynth)
    as (claims & ->).
  rewrite Convert_cons. unfold fileBody, ReadFile. rewrite Hread, Hdecode, Hsynth.
  cbn [snd range].
  destruct (perObject (ObjDeployment (createDeployment app')) out) as [out1 [| e |]];
    [| simpl; discriminate | simpl; discriminate].
  pose proof (objectBody_nil_service out1) as Hnil.
  destruct (perObject (ObjService None) out1) as [out2 [| e |]];
    [now destruct Hnil | simpl; discriminate | simpl; discriminate].
Qed.

End PipelineOrder.

(** ** The documents written *)

Section PipelineOutput.

Context {Quantity GroupVersionKind : Type}.
Variable ParseQuantity : string -> result Quantity.
Variable ioutil_ReadFile : string -> result string.
Variable yaml_Unmarshal : string -> result App.
Variable Scheme_ObjectKind : Object Quantity -> result (GroupVersionKind * bool).
Variable yaml_Marshal : GroupVersionKind -> Object Quantity -> result string.
Variable typeName : Object Quantity -> string.

Local Abbreviation convertLog :=
  (Convert ParseQuantity ioutil_ReadFile yaml_Unmarshal Scheme_ObjectKind yaml_Marshal
     typeName logWrite logWrite).

Local Abbreviation perObjectLog :=
  (objectBody Quantity GroupVersionKind (list string) Scheme_ObjectKind yaml_Marshal
     typeName logWrite logWrite).

Lemma objectBody_writable (encode : Object Quantity -> string) (o : Object Quantity)
    (out : list string) :
  writable Scheme_ObjectKind yaml_Marshal encode o -> perObjectLog o out = (out ++ ["---"; encode o], Next).
Proof.
  intros (Hnil & gvk & Hkind & Henc). unfold objectBody, writeObject, logWrite.
  rewrite Hkind, Henc, <- app_assoc.
  destruct o as [d|[s|]|pvc]; try reflexivity. now destruct Hnil.
Qed.

Lemma range_objectBody_writable (encode : Object Quantity -> string)
    (objs : list (Object Quantity)) (out : list string) :
  Forall (writable Scheme_ObjectKind yaml_Marshal encode) objs ->
  range perObjectLog objs out = (out ++ documents encode objs, Next).
Proof.
  intros Hall. revert out. induction Hall as [|o objs Ho _ IH]; intros out; cbn [range].
  - unfold documents. simpl. now rewrite app_nil_r.
  - rewrite (objectBody_writable encode o out Ho), IH.
    unfold documents. simpl. rewrite <- app_assoc. reflexivity.
Qed.

(** X15.  On an output that records what is written: when every object of a
    descriptor is a non-nil pointer with a versioned kind that encodes, the
    file contributes, in the order synthesis returned the objects, one
    separator "---" followed by the object's encoding per object, and
    conversion goes on with the remaining files. *)
Theorem X15_documents_in_generation_order (encode : Object Quantity -> string)
    (file data : string) (app : App) (objs : list (Object Quantity))
    (rest : list string) (out : list string) :
  ioutil_ReadFile file = Ok data ->
  yaml_Unmarshal data = Ok app ->
  snd (CreateK8sObjects ParseQuantity app) = Returns (Ok objs) ->
  Forall (writable Scheme_ObjectKind yaml_Marshal encode) objs ->
  convertLog (file :: rest) out = convertLog rest (out ++ documents encode objs).
Proof.
  intros Hread Hdecode Hsynth Hall. rewrite !Convert_cons.
  unfold fileBody at 1, ReadFile. rewrite Hread, Hdecode, Hsynth.
  rewrite (range_objectBody_writable encode objs out Hall).
  destruct rest as [|f fs]; [reflexivity|]. now rewrite Convert_cons.
Qed.

(** X16.  Output already written is not taken back: when the objects before
    some object are writable and that object is reported unversioned, or
    rejected by the scheme lookup, conversion returns the matching
    "ConvertToVersion failed" error with the documents of the earlier
    objects written, and neither the later objects nor the later files are
    processed. *)
Theorem X16_failure_keeps_earlier_documents (encode : Object Quantity -> string)
    (file data : string) (app : App) (good more : list (Object Quantity))
    (bad : Object Quantity) (rest : list string) (out : list string) :
  ioutil_ReadFile file = Ok data ->
  yaml_Unmarshal data = Ok app ->
  snd (CreateK8sObjects ParseQuantity app) = Returns (Ok (good ++ bad :: more)) ->
  Forall (writable Scheme_ObjectKind yaml_Marshal encode) good ->
  (forall gvk, Scheme_ObjectKind bad = Ok (gvk, true) ->
     convertLog (file :: rest) out
     = (out ++ documents encode good,
        Returns (Some ("ConvertToVersion failed: can't output unversioned type: "
                         +:+ typeName bad)))) /\
  (forall e, Scheme_ObjectKind bad = Err e ->
     convertLog (file :: rest) out
     = (out ++ documents encode good,
        Returns (Some ("ConvertToVersion failed: " +:+ e)))).
Proof.
  intros Hread Hdecode Hsynth Hall.
  assert (Hstep : forall stop,
            perObjectLog bad (out ++ documents encode good)
              = (out ++ documents encode good, Return stop) ->
            convertLog (file :: rest) out
              = (out ++ documents encode good, Returns (Some stop))).
  { intros stop Hbad. rewrite Convert_cons.
    unfold fileBody, ReadFile. rewrite Hread, Hdecode, Hsynth.
    rewrite range_app, (range_objectBody_writable encode good out Hall).
    cbn [range]. rewrite Hbad. reflexivity. }
  split.
  - intros gvk Hkind. apply Hstep. unfold objectBody. rewrite Hkind. reflexivity.
  - intros e Hkind. apply Hstep. unfold objectBody. rewrite Hkind. reflexivity.
Qed.

End PipelineOutput.

Lemma X13_witness :
  sampleConvert ["db.yaml"; "web.yaml"] [] = sampleConvert ["web.yaml"] [].
Proof.
  apply (X13_failed_synthesis_is_skipped Sample.ParseQuantity sampleRead sampleDecode
           sampleKind sampleMarshal sampleTypeName logWrite logWrite
           "db.yaml" "db" app_bad_size
           "cannot create pvc: could not read volume size: quantity does not start with a digit").
  - reflexivity.
  - reflexivity.
  - vm_compute. reflexivity.
Defined.

Lemma X14_witness :
  snd (sampleConvert ["noports.yaml"; "web.yaml"] []) <> Returns None.
Proof.
  apply (X14_descriptor_without_ports_never_converts Sample.ParseQuantity sampleRead
           sampleDecode sampleKind sampleMarshal sampleTypeName logWrite logWrite
           "noports.yaml" "noports" app_no_ports).
  - reflexivity.
  - reflexivity.
  - reflexivity.
  - constructor.
Defined.

Lemma X15_witness :
  sampleConvert ["web.yaml"] []
  = sampleConvert [] ([] ++ documents sampleEncode (ranObjects app_web)).
Proof.
  apply (X15_documents_in_generation_order Sample.ParseQuantity sampleRead sampleDecode
           sampleKind sampleMarshal sampleTypeName sampleEncode
           "web.yaml" "web" app_web (ranObjects app_web)).
  - reflexivity.
  - reflexivity.
  - vm_compute. reflexivity.
  - vm_compute ranObjects.
    repeat constructor; try discriminate; eexists; split; reflexivity.
Defined.

Lemma X16_witness :
  (forall gvk, sampleKind (ObjService None) = Ok (gvk, true) ->
     sampleConvert ["noports.yaml"; "web.yaml"] []
     = ([] ++ documents sampleEncode
                (firstn 1 (ranObjects app_no_ports)),
        Returns (Some ("ConvertToVersion failed: can't output unversioned type: "
                         +:+ sampleTypeName (ObjService None))))) /\
  (forall e, sampleKind (ObjService None) = Err e ->
     sampleConvert ["noports.yaml"; "web.yaml"] []
     = ([] ++ documents sampleEncode (firstn 1 (ranObjects app_no_ports)),
        Returns (Some ("ConvertToVersion failed: " +:+ e)))).
Proof.
  apply (X16_failure_keeps_earlier_documents Sample.ParseQuantity sampleRead sampleDecode
           sampleKind sampleMarshal sampleTypeName sampleEncode
           "noports.yaml" "noports" app_no_ports
           (firstn 1 (ranObjects app_no_ports)) []).
  - reflexivity.
  - reflexivity.
  - vm_compute. reflexivity.
  - vm_compute firstn.
    repeat constructor; try discriminate; eexists; split; reflexivity.
Defined.

(** The sample pipeline, evaluated: a descriptor with a port is written as
    two documents; one without ports stops at the nil service pointer after
    its deployment was written, and the file after it is not converted; a
    descriptor that fails synthesis leaves no trace. *)
Example sample_conversions :
  sampleConvert ["web.yaml"] []
    = (["---"; "Deployment web"; "---"; "Service web"], Returns None) /\
  sampleConvert ["noports.yaml"; "web.yaml"] []
    = (["---"; "Deployment web"],
       Returns (Some "ConvertToVersion failed: expected pointer, but got nil")) /\
  sampleConvert ["db.yaml"] [] = ([], Returns None) /\
  sampleConvert ["missing.yaml"; "web.yaml"] []
    = ([], Returns (Some "file reading failed: no such file")).
Proof. vm_compute. auto. Qed.

(** ** Failures of the encoder and of the output *)

Section PipelineSink.

Context {Quantity GroupVersionKind Stdout : Type}.
Variable ParseQuantity : string -> result Quantity.
Variable ioutil_ReadFile : string -> result string.
Variable yaml_Unmarshal : string -> result App.
Variable Scheme_ObjectKind : Object Quantity -> result (GroupVersionKind * bool).
Variable yaml_Marshal : GroupVersionKind -> Object Quantity -> result string.
Variable typeName : Object Quantity -> string.
Variable Fprintln : Stdout -> string -> Stdout * option error.
Variable Stdout_Write : Stdout -> string -> Stdout * option error.

Local Abbreviation convertTo :=
  (Convert ParseQuantity ioutil_ReadFile yaml_Unmarshal Scheme_ObjectKind yaml_Marshal
     typeName Fprintln Stdout_Write).

(** X17.  For the first object of a descriptor, once its kind is resolved
    and versioned: if it does not encode, nothing is written and the error is
    the encoder's wrapped with "failed to marshal object"; if the separator
    cannot be written, the object's data is not written either and the error
    is wrapped with "could not print to STDOUT" and "failed to write object";
    if the separator is written but the data is not, the error is wrapped
    with "could not write to STDOUT" and "failed to write object".  In each
    case the remaining objects and files are not processed. *)
Theorem X17_encoder_and_sink_failures (file data : string) (app : App)
    (d : Deployment) (more : list (Object Quantity)) (gvk : GroupVersionKind)
    (rest : list string) (out : Stdout) :
  ioutil_ReadFile file = Ok data ->
  yaml_Unmarshal data = Ok app ->
  snd (CreateK8sObjects ParseQuantity app) = Returns (Ok (ObjDeployment d :: more)) ->
  Scheme_ObjectKind (ObjDeployment d) = Ok (gvk, false) ->
  (forall e, yaml_Marshal gvk (ObjDeployment d) = Err e ->
     convertTo (file :: rest) out
     = (out, Returns (Some ("failed to marshal object: " +:+ e)))) /\
  (forall bytes out1 e,
     yaml_Marshal gvk (ObjDeployment d) = Ok bytes ->
     Fprintln out "---" = (out1, Some e) ->
     convertTo (file :: rest) out
     = (out1, Returns (Some ("failed to write object: could not print to STDOUT: " +:+ e)))) /\
  (forall bytes out1 out2 e,
     yaml_Marshal gvk (ObjDeployment d) = Ok bytes ->
     Fprintln out "---" = (out1, None) ->
     Stdout_Write out1 bytes = (out2, Some e) ->
     convertTo (file :: rest) out
     = (out2, Returns (Some ("failed to write object: could not write to STDOUT: " +:+ e)))).
Proof.
  intros Hread Hdecode Hsynth Hkind.
  assert (Hstart : forall r,
            objectBody Quantity GroupVersionKind Stdout Scheme_ObjectKind yaml_Marshal
              typeName Fprintln Stdout_Write (ObjDeployment d) out = (fst r, Return (snd r)) ->
            convertTo (file :: rest) out = (fst r, Returns (Some (snd r)))).
  { intros r Hr. unfold Convert. cbn [range]. unfold fileBody, ReadFile.
    rewrite Hread, Hdecode, Hsynth. cbn [range]. rewrite Hr. reflexivity. }
  split; [|split].
  - intros e He. apply (Hstart (out, _)). unfold objectBody. rewrite Hkind, He. reflexivity.
  - intros bytes out1 e Hb Hsep. apply (Hstart (out1, _)).
    unfold objectBody, writeObject. rewrite Hkind, Hb, Hsep. reflexivity.
  - intros bytes out1 out2 e Hb Hsep Hw. apply (Hstart (out2, _)).
    unfold objectBody, writeObject. rewrite Hkind, Hb, Hsep, Hw. reflexivity.
Qed.

End PipelineSink.

Lemma X17_witness :
  (forall e,
     sampleMarshal "Deployment" (ObjDeployment (createDeployment (ranDescriptor app_web)))
       = Err e ->
     Convert Sample.ParseQuantity sampleRead sampleDecode sampleKind sampleMarshal
       sampleTypeName failingWrite logWrite ["web.yaml"] []
     = ([], Returns (Some ("failed to marshal object: " +:+ e)))) /\
  (forall bytes out1 e,
     sampleMarshal "Deployment" (ObjDeployment (createDeployment (ranDescriptor app_web)))
       = Ok bytes ->
     failingWrite [] "---" = (out1, Some e) ->
     Convert Sample.ParseQuantity sampleRead sampleDecode sampleKind sampleMarshal
       sampleTypeName failingWrite logWrite ["web.yaml"] []
     = (out1, Returns (Some ("failed to write object: could not print to STDOUT: " +:+ e)))) /\
  (forall bytes out1 out2 e,
     sampleMarshal "Deployment" (ObjDeployment (createDeployment (ranDescriptor app_web)))
       = Ok bytes ->
     failingWrite [] "---" = (out1, None) ->
     logWrite out1 bytes = (out2, Some e) ->
     Convert Sample.ParseQuantity sampleRead sampleDecode sampleKind sampleMarshal
       sampleTypeName failingWrite logWrite ["web.yaml"] []
     = (out2, Returns (Some ("failed to write object: could not write to STDOUT: " +:+ e)))).
Proof.
  apply (X17_encoder_and_sink_failures Sample.ParseQuantity sampleRead sampleDecode
           sampleKind sampleMarshal sampleTypeName failingWrite logWrite
           "web.yaml" "web" app_web (createDeployment (ranDescriptor app_web))
           (tl (ranObjects app_web))).
  - reflexivity.
  - reflexivity.
  - vm_compute. reflexivity.
  - reflexivity.
Defined.

(** With an output that rejects the separator, and with one that accepts the
    separator and rejects the data. *)
Example sample_sink_failures :
  Convert Sample.ParseQuantity sampleRead sampleDecode sampleKind sampleMarshal
    sampleTypeName failingWrite logWrite ["web.yaml"] []
    = ([], Returns (Some "failed to write object: could not print to STDOUT: no space left on device")) /\
  Convert Sample.ParseQuantity sampleRead sampleDecode sampleKind sampleMarshal
    sampleTypeName logWrite failingWrite ["web.yaml"] []
    = (["---"], Returns (Some "failed to write object: could not write to STDOUT: no space left on device")).
Proof. vm_compute. auto. Qed.
